(** * XML query-map to JSON converter: a shallow embedding and its properties

    The development follows [xml_to_json_converter.py]:
    - [PyStr]   Python [str] values as sequences of Unicode code points,
                with the string methods the converter calls;
    - [Re]      the three [re.sub] calls and the one [re.search] call;
    - [OsPath]  [os.path.basename], [os.path.splitext], [os.path.join]
                (POSIX flavour);
    - [Converter] the element tree, the result dictionaries, the
                exception/state monad and the functions of the script. *)

From Stdlib Require Import String Ascii DecimalString.
From Stdlib Require Import List NArith ZArith Lia Bool PeanoNat.
Import ListNotations.

Set Warnings "-register-all".

Local Open Scope list_scope.

(* ================================================================== *)
(** ** Python strings *)

Module PyStr.

(** A Python [str] is a sequence of code points: [len] counts code points
    and slices cut between them. *)
Definition char := N.
Definition str := list char.

(** Code points of a source literal, which the file stores as UTF-8. *)
Fixpoint utf8_go (acc : N) (need : nat) (bs : list N) : str :=
  match bs with
  | [] => []
  | b :: bs' =>
    match need with
    | 0 =>
      if (b <? 128)%N then b :: utf8_go 0%N 0 bs'
      else if (b <? 224)%N then utf8_go (b mod 32)%N 1 bs'
      else if (b <? 240)%N then utf8_go (b mod 16)%N 2 bs'
      else utf8_go (b mod 8)%N 3 bs'
    | 1 => (acc * 64 + b mod 64)%N :: utf8_go 0%N 0 bs'
    | S n => utf8_go (acc * 64 + b mod 64)%N n bs'
    end
  end.

Definition u (s : string) : str :=
  utf8_go 0%N 0 (map N_of_ascii (list_ascii_of_string s)).
Arguments u s%_string.

Definition char_eqb (a b : char) : bool := (a =? b)%N.

Fixpoint str_eqb (a b : str) : bool :=
  match a, b with
  | [], [] => true
  | x :: a', y :: b' => char_eqb x y && str_eqb a' b'
  | _, _ => false
  end.

Definition str_eq_dec : forall a b : str, {a = b} + {a <> b} :=
  list_eq_dec N.eq_dec.

(** Truth value of a string: [if text] / [if not text]. *)
Definition truthy (s : str) : bool :=
  match s with [] => false | _ => true end.

(** [Py_UNICODE_ISSPACE]: the characters removed by [str.strip()] and
    matched by [\s] in a [str] pattern. *)
Definition is_space (c : char) : bool :=
  ((9 <=? c) && (c <=? 13) || (28 <=? c) && (c <=? 32)
   || (c =? 0x85) || (c =? 0xA0) || (c =? 0x1680)
   || (0x2000 <=? c) && (c <=? 0x200A)
   || (c =? 0x2028) || (c =? 0x2029) || (c =? 0x202F)
   || (c =? 0x205F) || (c =? 0x3000))%N.

Fixpoint drop_while (f : char -> bool) (s : str) : str :=
  match s with
  | [] => []
  | c :: s' => if f c then drop_while f s' else s
  end.

Fixpoint take_while (f : char -> bool) (s : str) : str :=
  match s with
  | [] => []
  | c :: s' => if f c then c :: take_while f s' else []
  end.

Definition lstrip (s : str) : str := drop_while is_space s.
Definition rstrip (s : str) : str := rev (drop_while is_space (rev s)).
Definition strip (s : str) : str := rstrip (lstrip s).

(** [s.startswith(p)] *)
Fixpoint startswith (p s : str) : bool :=
  match p, s with
  | [], _ => true
  | _ :: _, [] => false
  | x :: p', y :: s' => char_eqb x y && startswith p' s'
  end.

(** [sub in s] *)
Fixpoint contains (sub s : str) : bool :=
  startswith sub s ||
  match s with
  | [] => false
  | _ :: s' => contains sub s'
  end.

(** [s.rfind(c)] for a one-character [c]: the highest index, or [-1]. *)
Fixpoint rfind_from (c : char) (s : str) (i best : Z) : Z :=
  match s with
  | [] => best
  | x :: s' => rfind_from c s' (i + 1)%Z (if char_eqb x c then i else best)
  end.

Definition rfind (c : char) (s : str) : Z := rfind_from c s 0%Z (-1)%Z.

(** Slice bounds as Python clamps them. *)
Definition clamp (len i : Z) : Z :=
  if (i <? 0)%Z then Z.max 0 (len + i) else Z.min i len.

(** [s[i:]] and [s[:j]] *)
Definition slice_from (i : Z) (s : str) : str :=
  skipn (Z.to_nat (clamp (Z.of_nat (length s)) i)) s.
Definition slice_to (j : Z) (s : str) : str :=
  firstn (Z.to_nat (clamp (Z.of_nat (length s)) j)) s.

(** [s[i:i+1]] *)
Definition slice1 (i : Z) (s : str) : str := slice_to 1 (slice_from i s).

(** [str(n)] for a non-negative [int]. *)
Definition str_of_nat (n : nat) : str :=
  u (NilEmpty.string_of_uint (Nat.to_uint n)).

End PyStr.
Import PyStr.

(* ================================================================== *)
(** ** Regular expressions of the script *)

Module Re.

Definition OPEN : str := u "<![CDATA[".
Definition CLOSE : str := u "]]>".
Arguments OPEN : simpl never.
Arguments CLOSE : simpl never.

(** [re.sub(pattern, repl, s)] for a pattern that never matches the empty
    string.  [m t] is the length of the match of the pattern at the start of
    [t], if there is one.  The scan goes left to right; after a match it
    resumes behind the matched text. *)
Fixpoint sub_go (m : str -> option nat) (repl : str) (skip : nat) (s : str)
  : str :=
  match s with
  | [] => []
  | c :: s' =>
    match skip with
    | S k => sub_go m repl k s'
    | 0 =>
      match m s with
      | Some (S k) => repl ++ sub_go m repl k s'
      | _ => c :: sub_go m repl 0 s'
      end
    end
  end.

Definition sub (m : str -> option nat) (repl s : str) : str :=
  sub_go m repl 0 s.

(** [\s+] : a greedy, non-empty run of whitespace. *)
Definition m_spaces (t : str) : option nat :=
  match length (take_while is_space t) with
  | 0 => None
  | n => Some n
  end.

(** [<!\[CDATA\[\s*] : the opening marker and the whitespace behind it. *)
Definition m_open (t : str) : option nat :=
  if startswith OPEN t
  then Some (length OPEN
             + length (take_while is_space (skipn (length OPEN) t)))
  else None.

(** [\s*\]\]>] : whitespace and then the closing marker.  Giving back
    whitespace cannot help the match, since the character that follows a
    shorter run is itself whitespace. *)
Definition m_close (t : str) : option nat :=
  let n := length (take_while is_space t) in
  if startswith CLOSE (skipn n t) then Some (n + length CLOSE) else None.

(** [re.sub(r'\s+', ' ', s)], [re.sub(r'<!\[CDATA\[\s*', '', s)] and
    [re.sub(r'\s*\]\]>', '', s)] *)
Definition collapse_spaces (s : str) : str := sub m_spaces (u " ") s.
Definition remove_open (s : str) : str := sub m_open [] s.
Definition remove_close (s : str) : str := sub m_close [] s.

(** The lazy group of [<!\[CDATA\[(.*?)\]\]>] with [re.DOTALL], once the
    opening marker has matched: the text up to the first closing marker. *)
Fixpoint lazy_until_close (t : str) : option str :=
  if startswith CLOSE t then Some []
  else match t with
       | [] => None
       | c :: t' => option_map (cons c) (lazy_until_close t')
       end.

(** [re.search(r'<!\[CDATA\[(.*?)\]\]>', s, re.DOTALL)], returning
    [group(1)]: start positions are tried from the left. *)
Fixpoint search_cdata (s : str) : option str :=
  match s with
  | [] => None
  | _ :: s' =>
    if startswith OPEN s
    then match lazy_until_close (skipn (length OPEN) s) with
         | Some g => Some g
         | None => search_cdata s'
         end
    else search_cdata s'
  end.

End Re.

(* ================================================================== *)
(** ** [os.path] (posixpath) *)

Module OsPath.

Definition SEP : char := 47%N.     (* '/' *)
Definition EXTSEP : char := 46%N.  (* '.' *)

(** [i = p.rfind('/') + 1; return p[i:]] *)
Definition basename (p : str) : str :=
  let i := (rfind SEP p + 1)%Z in
  slice_from i p.

(** The loop of [genericpath._splitext] that skips the leading dots of the
    file name: [true] when a character other than a dot is met before
    [dotIndex]. *)
Fixpoint name_before_dot (p : str) (filenameIndex : Z) (n : nat) : bool :=
  match n with
  | 0 => false
  | S n' =>
    if negb (str_eqb (slice1 filenameIndex p) [EXTSEP]) then true
    else name_before_dot p (filenameIndex + 1)%Z n'
  end.

Definition splitext (p : str) : str * str :=
  let sepIndex := rfind SEP p in
  let dotIndex := rfind EXTSEP p in
  if (dotIndex >? sepIndex)%Z
     && name_before_dot p (sepIndex + 1)%Z
                        (Z.to_nat (dotIndex - (sepIndex + 1)))
  then (slice_to dotIndex p, slice_from dotIndex p)
  else (p, []).

(** [os.path.join(a, b)] for two components. *)
Definition join (a b : str) : str :=
  if startswith [SEP] b then b
  else if negb (truthy a) || str_eqb (slice_from (-1) a) [SEP] then a ++ b
  else a ++ [SEP] ++ b.

End OsPath.


(* ================================================================== *)
(** ** The converter *)

Module Converter.
Import Re OsPath.

(** *** Element trees, as [xml.etree.ElementTree] builds them *)

Inductive Element : Type :=
  mkElement (tag : str) (attrib : list (str * str)) (text : option str)
            (children : list Element).

Definition tag (e : Element) : str := let (t, _, _, _) := e in t.
Definition attrib (e : Element) : list (str * str) :=
  let (_, a, _, _) := e in a.
Definition text (e : Element) : option str := let (_, _, x, _) := e in x.
Definition children (e : Element) : list Element :=
  let (_, _, _, c) := e in c.

(** *** Dictionaries: insertion-ordered, keyed by strings *)

Fixpoint lookup {V : Type} (k : str) (d : list (str * V)) : option V :=
  match d with
  | [] => None
  | (k', v) :: d' => if str_eqb k' k then Some v else lookup k d'
  end.

(** [d[k] = v]: an existing key keeps its place, a new key goes last. *)
Fixpoint dict_set {V : Type} (k : str) (v : V) (d : list (str * V))
  : list (str * V) :=
  match d with
  | [] => [(k, v)]
  | (k', v') :: d' =>
    if str_eqb k' k then (k', v) :: d' else (k', v') :: dict_set k v d'
  end.

Definition keys {V : Type} (d : list (str * V)) : list str := map fst d.

(** The values the converter stores and serialises. *)
Inductive value : Type :=
| VStr (s : str)
| VDict (d : list (str * value)).

Definition dict := list (str * value).

(** [e.get(key, default)] *)
Definition get (e : Element) (key default : str) : str :=
  match lookup key (attrib e) with
  | Some v => v
  | None => default
  end.

(** [e.findall(name)] for a bare tag name: the direct children with that
    tag, in document order. *)
Definition findall (e : Element) (name : str) : list Element :=
  filter (fun c => str_eqb (tag c) name) (children e).

(** Truth value of an optional string ([None] and [''] are false). *)
Definition truthy_opt (t : option str) : bool :=
  match t with
  | Some s => truthy s
  | None => false
  end.

(** [t or ""] *)
Definition or_empty (t : option str) : str :=
  match t with
  | Some s => if truthy s then s else []
  | None => []
  end.

(** *** Exceptions, the world and the effects *)

(** The exceptions that reach a handler of the script, all of them
    subclasses of [Exception]. *)
Inductive exn : Type :=
| ET_ParseError (msg : str)
| KeyError (key : str)
| OtherException (msg : str).

Inductive exc (A : Type) : Type :=
| Ok (a : A)
| Raise (e : exn).
Arguments Ok {A} a.
Arguments Raise {A} e.

(** What the script reads from its environment.  [ET_parse] is
    [ET.parse(path).getroot()]; [open_w] tells whether opening a path for
    writing succeeds; [json_dump] tells whether, once the path is open,
    serialising the dictionary to it and closing it succeeds (it fails, for
    one, on a string that UTF-8 cannot encode and on a full device).  The
    files the script writes are JSON files it never reads back, so the
    answers do not change during a run. *)
Record World : Type := mkWorld {
  os_path_exists : str -> bool;
  os_path_isdir : str -> bool;
  os_path_isfile : str -> bool;
  ET_parse : str -> exc Element;
  glob_glob : str -> list str;
  open_w : str -> exc unit;
  json_dump : str -> dict -> exc unit
}.

(** What a path the script wrote to holds: the serialisation of a
    dictionary, or the incomplete text left when writing failed after the
    file had been opened. *)
Inductive file_content : Type :=
| Dumped (d : dict)
| Truncated.

(** What the script produces: the lines it prints, oldest first, and the
    files it writes. *)
Record Out : Type := mkOut {
  stdout : list str;
  written : list (str * file_content)
}.

Definition Out0 : Out := mkOut [] [].

(** Computations that print, write and may raise. *)
Definition M (A : Type) : Type := Out -> exc A * Out.

Definition ret {A : Type} (a : A) : M A := fun o => (Ok a, o).

Definition bind {A B : Type} (c : M A) (k : A -> M B) : M B :=
  fun o =>
    match c o with
    | (Ok a, o') => k a o'
    | (Raise e, o') => (Raise e, o')
    end.

Definition raise {A : Type} (e : exn) : M A := fun o => (Raise e, o).

Definition lift {A : Type} (r : exc A) : M A := fun o => (r, o).

(** [try: c  except ...: h e] *)
Definition try_except {A : Type} (c : M A) (h : exn -> M A) : M A :=
  fun o =>
    match c o with
    | (Ok a, o') => (Ok a, o')
    | (Raise e, o') => h e o'
    end.

Definition print (line : str) : M unit :=
  fun o => (Ok tt, mkOut (stdout o ++ [line]) (written o)).

Declare Scope py_scope.
Delimit Scope py_scope with py.
Notation "x <- c ;; k" := (bind c (fun x => k))
  (at level 61, c at next level, right associativity) : py_scope.
Notation "c ;; k" := (bind c (fun _ => k))
  (at level 61, right associativity) : py_scope.
Local Open Scope py_scope.

(** [with open(path, 'w', encoding='utf-8') as f: json.dump(d, f, ...)]:
    opening may raise and leaves the files as they are; once the file is
    open, writing and closing may raise too, and then it is left with an
    incomplete text. *)
Definition dump_to (w : World) (path : str) (d : dict) : M unit :=
  lift (open_w w path) ;;
  fun o =>
    match json_dump w path d with
    | Ok _ => (Ok tt, mkOut (stdout o) (dict_set path (Dumped d) (written o)))
    | Raise e =>
      (Raise e, mkOut (stdout o) (dict_set path Truncated (written o)))
    end.

Definition NL : char := 10%N.

Section Script.

(** [str.lower] and [repr] on strings are Python's own. *)
Variable str_lower : str -> str.
Variable str_repr : str -> str.

(** [str(e)] *)
Definition exn_str (e : exn) : str :=
  match e with
  | ET_ParseError msg => msg
  | KeyError key => str_repr key
  | OtherException msg => msg
  end.

Definition clean_multiline_text (text : str) : str :=
  if negb (truthy text) then []
  else
    let text := strip text in
    let text := collapse_spaces text in
    let text := remove_open text in
    let text := remove_close text in
    strip text.

Definition extract_query_id (query_id : str) : str :=
  if (3 <=? length query_id)%nat then str_lower (slice_to 3 query_id)
  else u "unknown".

(** The condition of the scan over the children of a [query]. *)
Definition cdata_child (child : Element) : bool :=
  contains (u "CDATA") (tag child)
  || (truthy_opt (text child) && contains (u "CDATA") (or_empty (text child))).

(** The [for child in query: ... break] loop; the value is [cdata_content]
    when the loop ends. *)
Fixpoint scan_children (cs : list Element) : str :=
  match cs with
  | [] => []
  | child :: rest =>
    if cdata_child child then
      let cdata_content := or_empty (text child) in
      match search_cdata cdata_content with
      | Some group1 => group1
      | None => cdata_content
      end
    else scan_children rest
  end.

Definition query_body (query : Element) : str :=
  let cdata_content := scan_children (children query) in
  if negb (truthy cdata_content) && truthy_opt (text query)
  then or_empty (text query)
  else cdata_content.

Definition wrap_cdata (cleaned_query : str) : str :=
  u "<![CDATA[" ++ [NL] ++ cleaned_query ++ [NL] ++ u "         ]]>".

Definition query_info (file_name query_map_desc : str) (query : Element)
  : value :=
  let query_id := get query (u "id") [] in
  let query_desc := get query (u "desc") [] in
  let cleaned_query := strip (query_body query) in
  VDict [ (u "id", VStr query_id);
          (u "desc", VStr query_desc);
          (u "file_name", VStr file_name);
          (u "query_map_desc", VStr query_map_desc);
          (u "query", VStr (wrap_cdata cleaned_query)) ].

(** [result[module_code][query_id] = query_info] *)
Definition setitem2 (result : dict) (module_code query_id : str)
           (info : value) : M dict :=
  match lookup module_code result with
  | Some (VDict inner) =>
    ret (dict_set module_code (VDict (dict_set query_id info inner)) result)
  | Some (VStr _) =>
    raise (OtherException
             (u "'str' object does not support item assignment"))
  | None => raise (KeyError module_code)
  end.

(** [for query in root.findall('query'): ...] *)
Fixpoint for_queries (module_code file_name query_map_desc : str)
         (queries : list Element) (result : dict) : M dict :=
  match queries with
  | [] => ret result
  | query :: rest =>
    result' <- setitem2 result module_code (get query (u "id") [])
                        (query_info file_name query_map_desc query) ;;
    for_queries module_code file_name query_map_desc rest result'
  end.

Definition module_code_of (file_name : str) : str :=
  if (3 <=? length file_name)%nat then str_lower (slice_to 3 file_name)
  else u "unknown".

(** The body of the [try] of [parse_glue_sql_file]. *)
Definition parse_body (w : World) (file_path : str) : M dict :=
  root <- lift (ET_parse w file_path) ;;
  let file_name := basename file_path in
  let query_map_desc := get root (u "desc") [] in
  let module_code := module_code_of file_name in
  let result := [(module_code, VDict [])] in
  for_queries module_code file_name query_map_desc
              (findall root (u "query")) result.

(** The two [except] clauses: [ET.ParseError] first, then [Exception]. *)
Definition parse_handlers (e : exn) : M dict :=
  match e with
  | ET_ParseError _ =>
    print (u "XML 파싱 오류: " ++ exn_str e) ;;
    ret [(u "error", VStr (u "XML 파싱 오류: " ++ exn_str e))]
  | _ =>
    print (u "처리 오류: " ++ exn_str e) ;;
    ret [(u "error", VStr (u "처리 오류: " ++ exn_str e))]
  end.

Definition parse_glue_sql_file (w : World) (file_path : str) : M dict :=
  try_except (parse_body w file_path) parse_handlers.

(** The output path [convert_xml_to_json] writes to. *)
Definition output_path (input_file : str) (output_file : option str) : str :=
  if negb (truthy_opt output_file) then
    let base_name := fst (splitext input_file) in
    base_name ++ u ".json"
  else or_empty output_file.

Definition convert_xml_to_json (w : World) (input_file : str)
           (output_file : option str) : M bool :=
  try_except
    (if negb (os_path_exists w input_file) then
       print (u "오류: 입력 파일 '" ++ input_file
                ++ u "'을 찾을 수 없습니다.") ;;
       ret false
     else
       result <- parse_glue_sql_file w input_file ;;
       let output_file := output_path input_file output_file in
       dump_to w output_file result ;;
       print (u "변환 완료: " ++ input_file ++ u " → " ++ output_file) ;;
       ret true)
    (fun e =>
       print (u "변환 오류: " ++ exn_str e) ;;
       ret false).

(** The loop of the directory mode, with its two counters. *)
Fixpoint for_files (w : World) (files : list str)
         (success_count fail_count : nat) : M (nat * nat) :=
  match files with
  | [] => ret (success_count, fail_count)
  | file :: rest =>
    print ([NL] ++ u "처리 중: " ++ file) ;;
    ok <- convert_xml_to_json w file None ;;
    if ok : bool then for_files w rest (success_count + 1) fail_count
    else for_files w rest success_count (fail_count + 1)
  end.

(** [main], returning the exit status of the process: [1] where the script
    calls [sys.exit(1)], [0] where it runs to its end. *)
Definition main (w : World) (argv : list str) : M nat :=
  if (length argv <? 2)%nat then
    print (u "사용법: python xml_to_json_converter.py <입력파일|디렉토리> [출력파일]") ;;
    print (u "예시 (파일): python xml_to_json_converter.py B47SA508.glue_sql B47SA508.json") ;;
    print (u "예시 (디렉토리): python xml_to_json_converter.py ./data") ;;
    ret 1
  else
    let input_path := nth 1 argv [] in
    if os_path_isdir w input_path then
      let pattern_glue_sql := join input_path (u "*.glue_sql") in
      let pattern_xml := join input_path (u "*.xml") in
      let files := glob_glob w pattern_glue_sql ++ glob_glob w pattern_xml in
      match files with
      | [] =>
        print (u "오류: 디렉토리 '" ++ input_path
                 ++ u "'에서 *.glue_sql 또는 *.xml 파일을 찾을 수 없습니다.") ;;
        ret 1
      | _ =>
        print (u "발견된 파일 " ++ str_of_nat (length files)
                 ++ u "개를 처리합니다...") ;;
        counts <- for_files w files 0 0 ;;
        let success_count := fst counts in
        let fail_count := snd counts in
        print ([NL] ++ u "=== 처리 완료 ===") ;;
        print (u "성공: " ++ str_of_nat success_count ++ u "개, 실패: "
                 ++ str_of_nat fail_count ++ u "개") ;;
        if (0 <? fail_count)%nat then ret 1 else ret 0
      end
    else if os_path_isfile w input_path then
      let output_file :=
        if (2 <? length argv)%nat then Some (nth 2 argv []) else None in
      success <- convert_xml_to_json w input_path output_file ;;
      if negb success then ret 1 else ret 0
    else
      print (u "오류: '" ++ input_path
               ++ u "'는 유효한 파일 또는 디렉토리가 아닙니다.") ;;
      ret 1.

End Script.

(** *** Notions used to state the properties *)

(** The [id] under which a [query] element is stored. *)
Definition qid (query : Element) : str := get query (u "id") [].

(** The inner dictionary after the loop has run over [queries]. *)
Definition collect (file_name query_map_desc : str)
           (queries : list Element) (inner : dict) : dict :=
  fold_left
    (fun d query => dict_set (qid query)
                             (query_info file_name query_map_desc query) d)
    queries inner.

(** A field of a record. *)
Definition field (name : str) (v : value) : option value :=
  match v with
  | VDict d => lookup name d
  | VStr _ => None
  end.

(** The shape of [str.lower]: character by character, each character giving
    one character, except U+0130, which gives [i] and U+0307. *)
Definition lower_shape (str_lower : str -> str) : Prop :=
  forall s : str,
    exists parts : list str,
      str_lower s = concat parts /\ length parts = length s /\
      Forall (fun p => length p = 1 \/ p = [105%N; 0x307%N]) parts.

(** [result[module_code][query_id]] *)
Definition entry (result : dict) (module_code query_id : str)
  : option value :=
  match lookup module_code result with
  | Some v => field query_id v
  | None => None
  end.

(** The text the scan over the children yields, told from the first child
    that meets the condition instead of by the loop. *)
Definition children_content (query : Element) : str :=
  match find cdata_child (children query) with
  | Some child =>
    match search_cdata (or_empty (text child)) with
    | Some group1 => group1
    | None => or_empty (text child)
    end
  | None => []
  end.

(** The dictionary the parser returns for a path. *)
Definition parse_result (str_lower str_repr : str -> str) (w : World)
           (file_path : str) : dict :=
  match fst (parse_glue_sql_file str_lower str_repr w file_path Out0) with
  | Ok d => d
  | Raise _ => []
  end.

(** Whether a conversion succeeds, for a given output argument: the input
    exists, the output path can be opened for writing, and the result of
    the parser can be serialised to it. *)
Definition convert_ok (str_lower str_repr : str -> str) (w : World)
           (input_file : str) (output_file : option str) : bool :=
  os_path_exists w input_file &&
  match open_w w (output_path input_file output_file) with
  | Ok _ =>
    match json_dump w (output_path input_file output_file)
                    (parse_result str_lower str_repr w input_file) with
    | Ok _ => true
    | Raise _ => false
    end
  | Raise _ => false
  end.

(** The same for the derived output path, as in the directory mode. *)
Definition converts (str_lower str_repr : str -> str) (w : World)
           (file : str) : bool :=
  convert_ok str_lower str_repr w file None.


(** The first character is whitespace. *)
Definition head_space (s : str) : bool :=
  match s with
  | c :: _ => is_space c
  | [] => false
  end.

(** A text that does not end with whitespace. *)
Definition ends_nonspace (s : str) : Prop := head_space (rev s) = false.

(** Every whitespace character is a space, and no two are adjacent. *)
Fixpoint collapsed (s : str) : bool :=
  match s with
  | [] => true
  | c :: s' =>
    (negb (is_space c) || (char_eqb c 32%N && negb (head_space s')))
    && collapsed s'
  end.

(** Collapsing, told by occurrences: up to the first run of whitespace the
    text stays, the run becomes one space, and so on behind it. *)
Inductive space_collapsed : str -> str -> Prop :=
| space_collapsed_none (s : str) :
    (forall c : char, In c s -> is_space c = false) ->
    space_collapsed s s
| space_collapsed_first (p w rest r : str) :
    (forall c : char, In c p -> is_space c = false) ->
    w <> [] -> forallb is_space w = true -> head_space rest = false ->
    space_collapsed rest r ->
    space_collapsed (p ++ w ++ rest) (p ++ 32%N :: r).

(** Stripping the opening markers: the first occurrence of the marker goes
    with the whitespace behind it, and so on behind that. *)
Inductive open_stripped : str -> str -> Prop :=
| open_stripped_none (s : str) :
    (forall a b : str, s <> a ++ OPEN ++ b) ->
    open_stripped s s
| open_stripped_first (p rest r : str) :
    (forall a b : str,
        p ++ OPEN ++ rest = a ++ OPEN ++ b -> length p <= length a) ->
    open_stripped (drop_while is_space rest) r ->
    open_stripped (p ++ OPEN ++ rest) (p ++ r).

(** Stripping the closing markers: the first occurrence of the marker goes
    with the whitespace in front of it, and so on behind it. *)
Inductive close_stripped : str -> str -> Prop :=
| close_stripped_none (s : str) :
    (forall a b : str, s <> a ++ CLOSE ++ b) ->
    close_stripped s s
| close_stripped_first (p w rest r : str) :
    ends_nonspace p -> forallb is_space w = true ->
    (forall a b : str,
        p ++ w ++ CLOSE ++ rest = a ++ CLOSE ++ b ->
        length (p ++ w) <= length a) ->
    close_stripped rest r ->
    close_stripped (p ++ w ++ CLOSE ++ rest) (p ++ r).

(** The files the directory mode processes, in its order. *)
Definition directory_files (w : World) (dir : str) : list str :=
  glob_glob w (join dir (u "*.glue_sql")) ++ glob_glob w (join dir (u "*.xml")).

(** The last line of the directory mode. *)
Definition summary_line (success_count fail_count : nat) : str :=
  u "성공: " ++ str_of_nat success_count ++ u "개, 실패: "
    ++ str_of_nat fail_count ++ u "개".

(** The strings of a list in the order of their first occurrence. *)
Fixpoint first_occurrences (l : list str) : list str :=
  match l with
  | [] => []
  | x :: l' =>
    x :: filter (fun y => negb (str_eqb y x)) (first_occurrences l')
  end.

(** The text of the error payload: the prefix depends on the handler that
    caught the exception. *)
Definition error_text (str_repr : str -> str) (e : exn) : str :=
  match e with
  | ET_ParseError _ => u "XML 파싱 오류: " ++ exn_str str_repr e
  | _ => u "처리 오류: " ++ exn_str str_repr e
  end.

End Converter.

(* ================================================================== *)
(** ** Concrete instances used by the examples *)

Module Examples.
Import Converter.

(** [str.lower] on ASCII letters and on U+0130 (capital I with dot above,
    whose lower case is [i] followed by U+0307); other characters are left
    as they are. *)
Definition lower_char (c : char) : str :=
  if ((65 <=? c) && (c <=? 90))%N then [(c + 32)%N]
  else if (c =? 0x130)%N then [105%N; 0x307%N]
  else [c].

Definition lower_tr (s : str) : str := concat (map lower_char s).

(** [repr] of a string of printable characters without quotes. *)
Definition repr_plain (s : str) : str := u "'" ++ s ++ u "'".

Definition parse := parse_glue_sql_file lower_tr repr_plain.
Definition convert := convert_xml_to_json lower_tr repr_plain.
Definition run := main lower_tr repr_plain.

(** A [query] element with a direct text body. *)
Definition q_text (id desc body : string) : Element :=
  mkElement (u "query") [(u "id", u id); (u "desc", u desc)]
            (Some (u body)) [].
Arguments q_text (id desc body)%_string.

Definition root_of (desc : string) (qs : list Element) : Element :=
  mkElement (u "queryMap") [(u "desc", u desc)] None qs.
Arguments root_of desc%_string qs.

(** Serialising as UTF-8: it fails on a lone surrogate in a key or a
    string, and on the full device; the texts of the errors are abridged. *)
Definition is_surrogate (c : char) : bool :=
  ((0xD800 <=? c) && (c <=? 0xDFFF))%N.

Fixpoint value_has_surrogate (v : value) : bool :=
  match v with
  | VStr s => existsb is_surrogate s
  | VDict d =>
    (fix entries (l : list (str * value)) : bool :=
       match l with
       | [] => false
       | (k, v') :: l' =>
         existsb is_surrogate k || value_has_surrogate v' || entries l'
       end) d
  end.

Definition dump_utf8 (path : str) (d : dict) : exc unit :=
  if str_eqb path (u "/dev/full")
  then Raise (OtherException (u "[Errno 28] No space left on device"))
  else if value_has_surrogate (VDict d)
  then Raise (OtherException (u "'utf-8' codec can't encode character: surrogates not allowed"))
  else Ok tt.

(** A world with the regular files [fs], each with the outcome of parsing
    it, in the directory [dir]; every path can be opened for writing. *)
Definition world_of (dir : str) (fs : list (str * exc Element)) : World :=
  mkWorld
    (fun p => str_eqb p dir || existsb (fun f => str_eqb (fst f) p) fs)
    (fun p => str_eqb p dir)
    (fun p => existsb (fun f => str_eqb (fst f) p) fs)
    (fun p => match lookup p fs with
              | Some r => r
              | None => Raise (OtherException (u "No such file or directory"))
              end)
    (fun pat =>
       if str_eqb pat (OsPath.join dir (u "*.glue_sql"))
       then filter (fun p => str_eqb (snd (OsPath.splitext p)) (u ".glue_sql"))
                   (map fst fs)
       else if str_eqb pat (OsPath.join dir (u "*.xml"))
       then filter (fun p => str_eqb (snd (OsPath.splitext p)) (u ".xml"))
                   (map fst fs)
       else [])
    (fun _ => Ok tt)
    dump_utf8.

(** Three files of one directory: two query maps and a file that is not
    well-formed XML. *)
Definition root_a : Element :=
  root_of "orders" [q_text "B47SA508_1.select" "first" " SELECT 1 ";
                    q_text "B47SA508_2.select" "second" "SELECT 2"].
Definition root_c : Element := root_of "empty" [].
Definition bad_xml : exc Element :=
  Raise (ET_ParseError (u "syntax error: line 1, column 0")).

Definition file_a : str := u "d/B47SA508.glue_sql".
Definition file_b : str := u "d/bad.xml".
Definition file_c : str := u "d/c.xml".

Definition w3 : World :=
  world_of (u "d") [(file_a, Ok root_a); (file_b, bad_xml);
                    (file_c, Ok root_c)].

(** A [query] with direct text and an empty child named [CDATA]. *)
Definition q_marker_child : Element :=
  mkElement (u "query") [(u "id", u "q1")] (Some (u "SELECT 2"))
            [mkElement (u "CDATA") [] None []].

(** A document whose descriptions carry untidy whitespace. *)
Definition root_untidy : Element :=
  mkElement (u "queryMap") [(u "desc", u " order   maps ")] None
            [q_text "q1" "  total   count " "SELECT 1"].
Definition file_untidy : str := u "B47.xml".
Definition w_untidy : World := world_of [] [(file_untidy, Ok root_untidy)].

(** A [query] without children and without text. *)
Definition q_bare : Element := mkElement (u "query") [(u "id", u "q0")] None [].

Definition TAB : char := 9%N.

(** The command lines of the examples. *)
Definition prog : str := u "xml_to_json_converter.py".
Definition file_missing : str := u "d/none.xml".


(** A directory with one well-formed file whose name holds a lone
    surrogate, as the file system hands over a name that is not UTF-8. *)
Definition file_sur : str := u "d/a" ++ [0xDC80%N] ++ u ".xml".
Definition w_sur : World :=
  world_of (u "d") [(file_sur, Ok (root_of "m" [q_text "q1" "d" "SELECT 1"]))].

(** A [query] with three children and direct text: the second child is the
    first that meets the condition of the scan, and its text holds a
    wrapper and a second closing marker. *)
Definition child_note : Element :=
  mkElement (u "note") [] (Some (u "plain")) [].
Definition child_sql : Element :=
  mkElement (u "sql") []
            (Some (u "x<![CDATA[ SELECT 3 ]]> tail ]]>")) [].
Definition child_late : Element :=
  mkElement (u "CDATA") [] (Some (u "later")) [].
Definition q_wrapped : Element :=
  mkElement (u "query") [(u "id", u "q2")] (Some (u "direct text"))
            [child_note; child_sql; child_late].

(** A [query] whose matching child has a text without wrapper. *)
Definition q_verbatim : Element :=
  mkElement (u "query") [(u "id", u "q3")] (Some (u "direct text"))
            [mkElement (u "sql") [] (Some (u " CDATA as a word ")) []].

(** A document in which an id occurs twice. *)
Definition root_dup : Element :=
  root_of "dup" [q_text "a" "first" "SELECT 1"; q_text "b" "other" "SELECT 2";
                 q_text "a" "again" "SELECT 3"].
Definition file_dup : str := u "d/dup.xml".
Definition w_dup : World := world_of (u "d") [(file_dup, Ok root_dup)].

(** A file whose name starts with U+0130. *)
Definition file_tr : str := u "İab.xml".
Definition w_tr : World := world_of [] [(file_tr, Ok root_c)].

End Examples.


(* ================================================================== *)
(** ** Strings and dictionaries: basic facts *)

Import Re OsPath Converter.
Local Open Scope py_scope.

Lemma str_eqb_eq (a b : str) : str_eqb a b = true <-> a = b.
Proof.
  revert b; induction a as [|x a IH]; intros [|y b]; simpl;
    try (split; [discriminate | discriminate]); [tauto|].
  unfold char_eqb. rewrite andb_true_iff, N.eqb_eq, IH.
  split; [intros [-> ->]; reflexivity | intros E; inversion E; auto].
Qed.

Lemma str_eqb_refl (a : str) : str_eqb a a = true.
Proof. apply str_eqb_eq; reflexivity. Qed.

Lemma str_eqb_neq (a b : str) : str_eqb a b = false <-> a <> b.
Proof.
  rewrite <- str_eqb_eq. destruct (str_eqb a b); split; congruence.
Qed.

Lemma lookup_dict_set {V : Type} (k k' : str) (v : V) (d : list (str * V)) :
  lookup k (dict_set k' v d) = if str_eqb k' k then Some v else lookup k d.
Proof.
  induction d as [|[k0 v0] d IH]; simpl.
  - destruct (str_eqb k' k); reflexivity.
  - destruct (str_eqb k0 k') eqn:E0; simpl.
    + apply str_eqb_eq in E0; subst k0.
      destruct (str_eqb k' k); reflexivity.
    + rewrite IH. destruct (str_eqb k0 k) eqn:E1; [|reflexivity].
      apply str_eqb_eq in E1; subst k0.
      destruct (str_eqb k' k) eqn:E2; [|reflexivity].
      apply str_eqb_eq in E2; subst k'. rewrite str_eqb_refl in E0.
      discriminate.
Qed.

Lemma lookup_None {V : Type} (k : str) (d : list (str * V)) :
  lookup k d = None <-> ~ In k (keys d).
Proof.
  induction d as [|[k0 v0] d IH]; simpl; [tauto|].
  destruct (str_eqb k0 k) eqn:E.
  - apply str_eqb_eq in E. split; [discriminate | intros H; tauto].
  - apply str_eqb_neq in E. rewrite IH. tauto.
Qed.

Lemma dict_set_fresh {V : Type} (k : str) (v : V) (d : list (str * V)) :
  ~ In k (keys d) -> dict_set k v d = d ++ [(k, v)].
Proof.
  induction d as [|[k0 v0] d IH]; simpl; intros H; [reflexivity|].
  destruct (str_eqb k0 k) eqn:E.
  - apply str_eqb_eq in E. tauto.
  - rewrite IH by tauto. reflexivity.
Qed.

Lemma find_app {A : Type} (f : A -> bool) (l1 l2 : list A) :
  find f (l1 ++ l2) =
  match find f l1 with
  | Some x => Some x
  | None => find f l2
  end.
Proof.
  induction l1 as [|x l1 IH]; simpl; [reflexivity|].
  destruct (f x); [reflexivity | exact IH].
Qed.

(* ================================================================== *)
(** ** The query loop *)

Section Parser.

Variable str_lower : str -> str.
Variable str_repr : str -> str.

Lemma for_queries_collect (mc fn qmd : str) (queries : list Element) :
  forall (inner : dict) (o : Out),
    for_queries mc fn qmd queries [(mc, VDict inner)] o =
    (Ok [(mc, VDict (collect fn qmd queries inner))], o).
Proof.
  induction queries as [|q queries IH]; intros inner o; [reflexivity|].
  simpl. unfold bind, setitem2. simpl. rewrite str_eqb_refl. simpl.
  apply IH.
Qed.

Lemma parse_body_ok (w : World) (file_path : str) (root : Element) (o : Out) :
  ET_parse w file_path = Ok root ->
  parse_body str_lower w file_path o =
  (Ok [(module_code_of str_lower (basename file_path),
        VDict (collect (basename file_path) (get root (u "desc") [])
                       (findall root (u "query")) []))], o).
Proof.
  intros H. unfold Converter.parse_body, bind, lift. rewrite H.
  apply for_queries_collect.
Qed.

Lemma parse_body_raise (w : World) (file_path : str) (e : exn) (o : Out) :
  ET_parse w file_path = Raise e ->
  parse_body str_lower w file_path o = (Raise e, o).
Proof.
  intros H. unfold Converter.parse_body, bind, lift. rewrite H. reflexivity.
Qed.

Lemma parse_ok (w : World) (file_path : str) (root : Element) (o : Out) :
  ET_parse w file_path = Ok root ->
  parse_glue_sql_file str_lower str_repr w file_path o =
  (Ok [(module_code_of str_lower (basename file_path),
        VDict (collect (basename file_path) (get root (u "desc") [])
                       (findall root (u "query")) []))], o).
Proof.
  intros H. unfold Converter.parse_glue_sql_file, try_except.
  rewrite (parse_body_ok _ _ _ _ H). reflexivity.
Qed.

Lemma parse_raise (w : World) (file_path : str) (e : exn) (o : Out) :
  ET_parse w file_path = Raise e ->
  parse_glue_sql_file str_lower str_repr w file_path o =
  (Ok [(u "error", VStr (error_text str_repr e))],
   mkOut (stdout o ++ [error_text str_repr e]) (written o)).
Proof.
  intros H. unfold Converter.parse_glue_sql_file, try_except.
  rewrite (parse_body_raise _ _ _ _ H).
  destruct e; reflexivity.
Qed.

(** *** Facts about [collect] *)

Lemma collect_lookup (fn qmd : str) (queries : list Element) :
  forall (inner : dict) (k : str),
    lookup k (collect fn qmd queries inner) =
    match find (fun q => str_eqb (qid q) k) (rev queries) with
    | Some q => Some (query_info fn qmd q)
    | None => lookup k inner
    end.
Proof.
  induction queries as [|q queries IH]; intros inner k; [reflexivity|].
  simpl. unfold collect in *. simpl. rewrite IH, find_app. simpl.
  destruct (find _ (rev queries)); [reflexivity|].
  rewrite lookup_dict_set. destruct (str_eqb (qid q) k); reflexivity.
Qed.

Lemma collect_fresh (fn qmd : str) (queries : list Element) :
  forall inner : dict,
    NoDup (keys inner ++ map qid queries) ->
    collect fn qmd queries inner =
    inner ++ map (fun q => (qid q, query_info fn qmd q)) queries.
Proof.
  induction queries as [|q queries IH]; intros inner H; simpl.
  - symmetry; apply app_nil_r.
  - unfold collect in *. simpl.
    assert (Hq : ~ In (qid q) (keys inner)).
    { intros Hin. apply NoDup_remove_2 in H. apply H.
      apply in_or_app; left; exact Hin. }
    rewrite dict_set_fresh by exact Hq.
    rewrite IH.
    + rewrite <- app_assoc. reflexivity.
    + unfold keys. rewrite map_app. simpl. rewrite <- app_assoc. exact H.
Qed.

End Parser.

(* ================================================================== *)
(** ** Slices, [rfind] and the path functions *)

Lemma char_eqb_eq (a b : char) : char_eqb a b = true <-> a = b.
Proof. unfold char_eqb. apply N.eqb_eq. Qed.

Lemma slice_from_skipn (i : Z) (s : str) :
  (0 <= i)%Z -> slice_from i s = skipn (Z.to_nat i) s.
Proof.
  intros Hi. unfold slice_from, clamp.
  destruct (i <? 0)%Z eqn:E; [apply Z.ltb_lt in E; lia|].
  destruct (Z.le_gt_cases i (Z.of_nat (length s))) as [Hle|Hgt].
  - rewrite Z.min_l by lia. reflexivity.
  - rewrite Z.min_r by lia. rewrite Nat2Z.id.
    rewrite skipn_all. symmetry. apply skipn_all2. lia.
Qed.

Lemma slice_to_firstn (j : Z) (s : str) :
  (0 <= j)%Z -> slice_to j s = firstn (Z.to_nat j) s.
Proof.
  intros Hj. unfold slice_to, clamp.
  destruct (j <? 0)%Z eqn:E; [apply Z.ltb_lt in E; lia|].
  destruct (Z.le_gt_cases j (Z.of_nat (length s))) as [Hle|Hgt].
  - rewrite Z.min_l by lia. reflexivity.
  - rewrite Z.min_r by lia. rewrite Nat2Z.id.
    rewrite firstn_all. symmetry. apply firstn_all2. lia.
Qed.

(** [rfind] finds the last occurrence. *)
Lemma rfind_from_spec (c : char) (s : str) :
  forall i best : Z,
    (rfind_from c s i best = best /\ ~ In c s) \/
    (exists pre post : str,
        s = pre ++ c :: post /\ ~ In c post /\
        rfind_from c s i best = (i + Z.of_nat (length pre))%Z).
Proof.
  induction s as [|x s IH]; intros i best; simpl.
  - left; split; [reflexivity | tauto].
  - destruct (IH (i + 1)%Z (if char_eqb x c then i else best))
      as [[Hr Hn]|(pre & post & Hs & Hn & Hr)].
    + destruct (char_eqb x c) eqn:E.
      * apply char_eqb_eq in E; subst x. right. exists [], s.
        simpl. repeat split; [exact Hn | lia].
      * left. split; [exact Hr|]. intros [H|H]; [|tauto].
        subst x. unfold char_eqb in E. rewrite N.eqb_refl in E. discriminate.
    + right. exists (x :: pre), post. subst s. simpl.
      repeat split; [exact Hn | lia].
Qed.

Lemma rfind_spec (c : char) (s : str) :
  (rfind c s = (-1)%Z /\ ~ In c s) \/
  (exists pre post : str,
      s = pre ++ c :: post /\ ~ In c post /\
      rfind c s = Z.of_nat (length pre)).
Proof.
  unfold rfind. destruct (rfind_from_spec c s 0 (-1)) as [H|H]; [left; exact H|].
  right. destruct H as (pre & post & H1 & H2 & H3).
  exists pre, post. repeat split; [exact H1 | exact H2 | lia].
Qed.

Lemma skipn_app_cons {A : Type} (pre : list A) (c : A) (post : list A) :
  skipn (S (length pre)) (pre ++ c :: post) = post.
Proof.
  induction pre as [|x pre IH]; simpl; [reflexivity | exact IH].
Qed.

Lemma firstn_app_exact {A : Type} (pre post : list A) :
  firstn (length pre) (pre ++ post) = pre.
Proof.
  induction pre as [|x pre IH]; simpl; [reflexivity | f_equal; exact IH].
Qed.

Lemma skipn_app_exact {A : Type} (pre post : list A) :
  skipn (length pre) (pre ++ post) = post.
Proof.
  induction pre as [|x pre IH]; simpl; [reflexivity | exact IH].
Qed.

(** The base name is what follows the last separator. *)
Lemma basename_spec (p : str) :
  exists dir : str,
    p = dir ++ basename p /\ ~ In SEP (basename p) /\
    (dir = [] \/ exists d : str, dir = d ++ [SEP]).
Proof.
  unfold basename.
  destruct (rfind_spec SEP p) as [[Hr Hn]|(pre & post & Hs & Hn & Hr)].
  - rewrite Hr. exists []. rewrite slice_from_skipn by lia. simpl.
    repeat split; [exact Hn | left; reflexivity].
  - rewrite Hr. exists (pre ++ [SEP]).
    rewrite slice_from_skipn by lia.
    replace (Z.to_nat (Z.of_nat (length pre) + 1)) with (S (length pre))
      by lia.
    assert (Hk : skipn (S (length pre)) p = post)
      by (rewrite Hs; apply skipn_app_cons).
    rewrite Hk.
    repeat split.
    + rewrite <- app_assoc. exact Hs.
    + exact Hn.
    + right. exists pre. reflexivity.
Qed.

(** The extension of a path holds no separator; it is empty, or a dot and
    dot-free characters; the root and the extension make up the path. *)
Lemma splitext_spec (p : str) :
  let (root, ext) := splitext p in
  p = root ++ ext /\ ~ In SEP ext /\
  (ext = [] \/ exists e : str, ext = EXTSEP :: e /\ ~ In EXTSEP e).
Proof.
  unfold splitext.
  destruct (rfind_spec EXTSEP p) as [[Hd Hnd]|(pre & post & Hs & Hnd & Hd)].
  - rewrite Hd.
    destruct ((-1 >? rfind SEP p)%Z &&
              name_before_dot p (rfind SEP p + 1)
                (Z.to_nat (-1 - (rfind SEP p + 1)))) eqn:E.
    + apply andb_true_iff in E. destruct E as [E _].
      apply Z.gtb_lt in E.
      destruct (rfind_spec SEP p) as [[Hr _]|(a & b & _ & _ & Hr)]; lia.
    + rewrite app_nil_r. repeat split; [tauto | left; reflexivity].
  - rewrite Hd.
    destruct ((Z.of_nat (length pre) >? rfind SEP p)%Z &&
              name_before_dot p (rfind SEP p + 1)
                (Z.to_nat (Z.of_nat (length pre) - (rfind SEP p + 1))))
      eqn:E.
    + apply andb_true_iff in E. destruct E as [E _].
      apply Z.gtb_lt in E.
      rewrite slice_to_firstn, slice_from_skipn by lia.
      rewrite Nat2Z.id.
      assert (Hf : firstn (length pre) p = pre)
        by (rewrite Hs; apply firstn_app_exact).
      assert (Hk : skipn (length pre) p = EXTSEP :: post)
        by (rewrite Hs; apply skipn_app_exact).
      rewrite Hf, Hk.
      repeat split.
      * exact Hs.
      * intros Hin.
        destruct (rfind_spec SEP p) as [[_ Hn]|(a & b & Hp & Hn & Hr)].
        { apply Hn. rewrite Hs. apply in_or_app. right. exact Hin. }
        { (* the last separator lies before the dot *)
          rewrite Hr in E. apply Nat2Z.inj_lt in E.
          assert (Hb : b = skipn (S (length a)) p)
            by (rewrite Hp at 1; symmetry; apply skipn_app_cons).
          assert (Hsuf : exists m : str, b = m ++ EXTSEP :: post).
          { exists (skipn (S (length a)) pre). rewrite Hb, Hs.
            rewrite skipn_app.
            replace (S (length a) - length pre) with 0 by lia.
            reflexivity. }
          destruct Hsuf as (m & Hm). apply Hn. rewrite Hm.
          apply in_or_app. right. exact Hin. }
      * right. exists post. split; [reflexivity | exact Hnd].
    + rewrite app_nil_r. repeat split; [tauto | left; reflexivity].
Qed.

(* ================================================================== *)
(** ** The parser: results, keys and entries *)

Lemma unknown_not_error : u "unknown" <> u "error".
Proof. intros H. vm_compute in H. discriminate. Qed.

Lemma lower3_shape (f : str -> str) (s : str) :
  lower_shape f -> length s = 3 ->
  f s <> u "error" /\ 3 <= length (f s) <= 6.
Proof.
  intros Hl Hs. destruct (Hl s) as (parts & E & L & F).
  rewrite E. rewrite Hs in L.
  destruct parts as [|p1 [|p2 [|p3 [|p4 parts]]]]; try discriminate.
  inversion F as [|? ? H1 F1]; subst.
  inversion F1 as [|? ? H2 F2]; subst.
  inversion F2 as [|? ? H3 F3]; subst.
  assert (Herr : u "error" = [101; 114; 114; 111; 114]%N) by reflexivity.
  rewrite Herr. simpl. rewrite app_nil_r.
  destruct H1 as [H1 | ->]; destruct H2 as [H2 | ->]; destruct H3 as [H3 | ->];
    repeat match goal with
           | H : length ?p = 1 |- _ =>
             destruct p as [|? [|? ?]]; simpl in H; try discriminate H;
             clear H
           end;
    simpl; (split; [congruence | lia]).
Qed.

Section ParserClaims.

Variable str_lower : str -> str.
Variable str_repr : str -> str.

(** C7.  The parser never raises.  Whatever the outcome of reading the
    document, [parse_glue_sql_file] returns a dictionary; when reading it
    raises (a parse error or any other exception), the dictionary is
    [{"error": message}] and the message is printed.  More generally, the
    handlers turn every exception raised by any body in their [try] into
    such a dictionary. *)
Theorem parse_never_raises (w : World) (file_path : str) (o : Out) :
  (exists (d : dict) (o' : Out),
      parse_glue_sql_file str_lower str_repr w file_path o = (Ok d, o') /\
      match ET_parse w file_path with
      | Ok _ => o' = o
      | Raise e =>
        d = [(u "error", VStr (error_text str_repr e))] /\
        stdout o' = stdout o ++ [error_text str_repr e] /\
        written o' = written o
      end) /\
  (forall (body : M dict) (e : exn) (o1 : Out),
      body o = (Raise e, o1) ->
      try_except body (parse_handlers str_repr) o =
      (Ok [(u "error", VStr (error_text str_repr e))],
       mkOut (stdout o1 ++ [error_text str_repr e]) (written o1))) /\
  (forall (body : M dict) (o0 : Out),
      exists (d : dict) (o' : Out),
        try_except body (parse_handlers str_repr) o0 = (Ok d, o')).
Proof.
  split; [|split].
  - destruct (ET_parse w file_path) as [root|e] eqn:E.
    + eexists _, _. split; [apply (parse_ok _ _ _ _ _ _ E) | reflexivity].
    + eexists _, _. split; [apply (parse_raise _ _ _ _ _ _ E)|].
      simpl. auto.
  - intros body e o1 H. unfold try_except. rewrite H.
    destruct e; reflexivity.
  - intros body o0. unfold try_except.
    destruct (body o0) as [[d|e] o1].
    + eexists _, _. reflexivity.
    + destruct e; eexists _, _; reflexivity.
Qed.

(** C5.  The top-level key of a successful result is the module code: the
    lower-cased first three characters of the base file name, that is of
    what follows the last slash of the input path, whatever the document
    holds; a base name of fewer than three characters gives "unknown". *)
Theorem module_code_from_file_name
        (w : World) (file_path : str) (root : Element) (o : Out)
        (H : ET_parse w file_path = Ok root) :
  exists (dir file_name : str) (inner : dict),
    file_path = dir ++ file_name /\ ~ In SEP file_name /\
    (dir = [] \/ exists d : str, dir = d ++ [SEP]) /\
    file_name = basename file_path /\
    parse_glue_sql_file str_lower str_repr w file_path o =
    (Ok [(if length file_name <? 3 then u "unknown"
          else str_lower (firstn 3 file_name), VDict inner)], o).
Proof.
  destruct (basename_spec file_path) as (dir & H1 & H2 & H3).
  exists dir, (basename file_path). eexists.
  repeat split; [exact H1 | exact H2 | exact H3 |].
  rewrite (parse_ok _ _ _ _ _ _ H). unfold module_code_of.
  rewrite slice_to_firstn by lia.
  destruct (length (basename file_path) <? 3) eqn:E.
  - apply Nat.ltb_lt in E.
    destruct (3 <=? length (basename file_path)) eqn:E'; [|reflexivity].
    apply Nat.leb_le in E'. lia.
  - apply Nat.ltb_ge in E.
    destruct (3 <=? length (basename file_path)) eqn:E'; [reflexivity|].
    apply Nat.leb_gt in E'. lia.
Qed.

(** C6.  For a well-formed document the result has the module code as its
    single key.  Under it, when the [query] children of the root have
    pairwise distinct ids, there is exactly one entry per child, in document
    order; without [query] children the nested dictionary is empty; and in
    general the entry under an id is the record of the last child, in
    document order, that carries this id. *)
Theorem query_entries
        (w : World) (file_path : str) (root : Element) (o : Out)
        (H : ET_parse w file_path = Ok root) :
  let queries := findall root (u "query") in
  let record := query_info (basename file_path) (get root (u "desc") []) in
  exists inner : dict,
    parse_glue_sql_file str_lower str_repr w file_path o =
    (Ok [(module_code_of str_lower (basename file_path), VDict inner)], o) /\
    (NoDup (map qid queries) ->
     inner = map (fun q => (qid q, record q)) queries /\
     length inner = length queries) /\
    (queries = [] -> inner = []) /\
    (forall k : str,
        lookup k inner =
        option_map record (find (fun q => str_eqb (qid q) k) (rev queries))).
Proof.
  intros queries record. eexists. split; [apply (parse_ok _ _ _ _ _ _ H)|].
  fold queries. split; [|split].
  - intros ND. rewrite collect_fresh by exact ND. simpl.
    split; [reflexivity | apply length_map].
  - intros ->. reflexivity.
  - intros k. rewrite collect_lookup. simpl.
    destruct (find _ (rev queries)); reflexivity.
Qed.

(** C10 (amended).  The result of the parser has exactly one top-level key:
    the module code when the document was read, "error" when reading it
    raised.  The module code is "unknown" or the lower-casing of three
    characters, which has three to six characters; it is never "error", so
    the key "error" is present exactly when the conversion failed. *)
Theorem top_level_key_unambiguous
        (Hl : lower_shape str_lower)
        (w : World) (file_path : str) (o : Out) :
  exists (k : str) (v : value) (o' : Out),
    parse_glue_sql_file str_lower str_repr w file_path o
    = (Ok [(k, v)], o') /\
    match ET_parse w file_path with
    | Ok _ =>
      k = module_code_of str_lower (basename file_path) /\
      k <> u "error" /\ (k = u "unknown" \/ 3 <= length k <= 6)
    | Raise _ => k = u "error"
    end /\
    (lookup (u "error") [(k, v)] <> None <->
     exists e : exn, ET_parse w file_path = Raise e).
Proof.
  assert (Hmc : forall fn : str,
             module_code_of str_lower fn <> u "error" /\
             (module_code_of str_lower fn = u "unknown" \/
              3 <= length (module_code_of str_lower fn) <= 6)).
  { intros fn. unfold module_code_of.
    destruct (3 <=? length fn) eqn:E.
    - apply Nat.leb_le in E. rewrite slice_to_firstn by lia.
      destruct (lower3_shape str_lower (firstn 3 fn) Hl) as [A B].
      + rewrite length_firstn. change (Z.to_nat 3) with 3. lia.
      + split; [exact A | right; exact B].
    - split; [exact unknown_not_error | left; reflexivity]. }
  destruct (ET_parse w file_path) as [root|e] eqn:E.
  - eexists _, _, _. split; [apply (parse_ok _ _ _ _ _ _ E)|].
    destruct (Hmc (basename file_path)) as [A B].
    split; [split; [reflexivity | split; [exact A | exact B]]|].
    simpl. apply str_eqb_neq in A. rewrite A.
    split; [intros C; exfalso; apply C; reflexivity|].
    intros [e Habs]. discriminate.
  - eexists _, _, _. split; [apply (parse_raise _ _ _ _ _ _ E)|].
    split; [reflexivity|]. simpl.
    split; [intros _; exists e; reflexivity | intros _ C; discriminate].
Qed.

End ParserClaims.

(* ================================================================== *)
(** ** Whitespace and [strip] *)

Lemma take_drop_while (f : char -> bool) (s : str) :
  take_while f s ++ drop_while f s = s.
Proof.
  induction s as [|c s IH]; simpl; [reflexivity|].
  destruct (f c); simpl; [f_equal; exact IH | reflexivity].
Qed.

Lemma take_while_all (f : char -> bool) (s : str) :
  forallb f (take_while f s) = true.
Proof.
  induction s as [|c s IH]; simpl; [reflexivity|].
  destruct (f c) eqn:E; simpl; [rewrite E; exact IH | reflexivity].
Qed.

Lemma drop_while_head (f : char -> bool) (s : str) (c : char) (r : str) :
  drop_while f s = c :: r -> f c = false.
Proof.
  induction s as [|x s IH]; simpl; [discriminate|].
  destruct (f x) eqn:E; [exact IH|].
  intros H; inversion H; subst; exact E.
Qed.

Lemma forallb_rev (f : char -> bool) (s : str) :
  forallb f (rev s) = forallb f s.
Proof.
  induction s as [|c s IH]; simpl; [reflexivity|].
  rewrite forallb_app, IH. simpl. rewrite andb_true_r. apply andb_comm.
Qed.

(** [rstrip] cuts a run of whitespace off the end. *)
Lemma rstrip_spec (s : str) :
  exists r : str,
    s = rstrip s ++ r /\ forallb is_space r = true /\
    (forall (b : str) (c : char), rstrip s = b ++ [c] -> is_space c = false).
Proof.
  exists (rev (take_while is_space (rev s))). unfold rstrip.
  split; [|split].
  - rewrite <- rev_app_distr, take_drop_while, rev_involutive. reflexivity.
  - rewrite forallb_rev. apply take_while_all.
  - intros b c H. apply (f_equal (@rev char)) in H.
    rewrite rev_involutive, rev_app_distr in H. simpl in H.
    exact (drop_while_head _ _ _ _ H).
Qed.

(** [strip] cuts whitespace off both ends and nothing else: what is left
    neither starts nor ends with whitespace. *)
Lemma strip_spec (s : str) :
  exists l r : str,
    s = l ++ strip s ++ r /\
    forallb is_space l = true /\ forallb is_space r = true /\
    (forall (c : char) (b : str), strip s = c :: b -> is_space c = false) /\
    (forall (b : str) (c : char), strip s = b ++ [c] -> is_space c = false).
Proof.
  unfold strip, lstrip.
  destruct (rstrip_spec (drop_while is_space s)) as (r & H1 & H2 & H3).
  exists (take_while is_space s), r. split; [|split; [|split; [|split]]].
  - rewrite <- H1. symmetry. apply take_drop_while.
  - apply take_while_all.
  - exact H2.
  - intros c b H. rewrite H in H1. simpl in H1.
    exact (drop_while_head _ _ _ _ H1).
  - exact H3.
Qed.

(* ================================================================== *)
(** ** The search for the CDATA wrapper *)

Lemma startswith_iff (p s : str) :
  startswith p s = true <-> exists r : str, s = p ++ r.
Proof.
  revert s; induction p as [|x p IH]; intros s; simpl.
  - split; [intros _; exists s; reflexivity | reflexivity].
  - destruct s as [|y s].
    + split; [discriminate | intros [r H]; discriminate].
    + rewrite andb_true_iff, char_eqb_eq, IH. split.
      * intros [-> [r ->]]. exists r. reflexivity.
      * intros [r H]. inversion H; subst. split; [reflexivity|].
        exists r; reflexivity.
Qed.

Lemma startswith_app (p r : str) : startswith p (p ++ r) = true.
Proof. apply startswith_iff. exists r. reflexivity. Qed.

Lemma lazy_until_close_unfold (t : str) :
  lazy_until_close t =
  if startswith CLOSE t then Some []
  else match t with
       | [] => None
       | c :: t' => option_map (cons c) (lazy_until_close t')
       end.
Proof. destruct t; reflexivity. Qed.

(** The lazy group ends at the first closing marker. *)
Lemma lazy_until_close_Some (t g : str) :
  lazy_until_close t = Some g ->
  (exists post : str, t = g ++ CLOSE ++ post) /\
  (forall a b : str, t = a ++ CLOSE ++ b -> length g <= length a).
Proof.
  revert g; induction t as [|c t IH]; intros g;
    rewrite lazy_until_close_unfold.
  - simpl. discriminate.
  - destruct (startswith CLOSE (c :: t)) eqn:E.
    + intros H; inversion H; subst g. apply startswith_iff in E.
      split; [exact E | intros; simpl; lia].
    + destruct (lazy_until_close t) as [g'|] eqn:L; simpl; [|discriminate].
      intros H; inversion H; subst g.
      destruct (IH g' eq_refl) as [[post Hp] Hmin].
      split; [exists post; simpl; f_equal; exact Hp|].
      intros a b Hab. destruct a as [|x a].
      * rewrite (proj2 (startswith_iff CLOSE (c :: t)) (ex_intro _ b Hab)) in E.
        discriminate.
      * simpl in Hab. inversion Hab; subst.
        simpl. apply le_n_S. apply (Hmin a b). assumption.
Qed.

Lemma lazy_until_close_None (t : str) :
  lazy_until_close t = None -> forall a b : str, t <> a ++ CLOSE ++ b.
Proof.
  induction t as [|c t IH]; rewrite lazy_until_close_unfold.
  - intros _ a b H. destruct a; discriminate.
  - destruct (startswith CLOSE (c :: t)) eqn:E; [discriminate|].
    destruct (lazy_until_close t) as [g'|] eqn:L; simpl; [discriminate|].
    intros _ a b Hab. destruct a as [|x a].
    + rewrite (proj2 (startswith_iff CLOSE (c :: t)) (ex_intro _ b Hab)) in E.
        discriminate.
    + simpl in Hab. inversion Hab; subst. exact (IH eq_refl a b eq_refl).
Qed.

Lemma length_OPEN : length OPEN = 9.
Proof. reflexivity. Qed.

Lemma skipn_OPEN (r : str) : skipn (length OPEN) (OPEN ++ r) = r.
Proof. apply skipn_app_exact. Qed.

(** [re.search] finds the wrapper that starts at the first opening marker
    and ends at the first closing marker behind it; it fails only when the
    text holds no opening marker with a closing marker behind it. *)
Lemma search_cdata_spec (s : str) :
  match search_cdata s with
  | Some g =>
    exists pre post : str,
      s = pre ++ OPEN ++ g ++ CLOSE ++ post /\
      (forall a b : str, s = a ++ OPEN ++ b -> length pre <= length a) /\
      (forall a b : str,
          g ++ CLOSE ++ post = a ++ CLOSE ++ b -> length g <= length a)
  | None =>
    forall pre g post : str, s <> pre ++ OPEN ++ g ++ CLOSE ++ post
  end.
Proof.
  induction s as [|c s IH]; cbn [search_cdata].
  - intros pre g post H. destruct pre; discriminate.
  - destruct (startswith OPEN (c :: s)) eqn:E.
    + destruct (proj1 (startswith_iff _ _) E) as [r Hr].
      replace (skipn (length OPEN) (c :: s)) with r
        by (rewrite Hr; symmetry; apply skipn_OPEN).
      destruct (lazy_until_close r) as [g|] eqn:L.
      * destruct (lazy_until_close_Some _ _ L) as [[post Hp] Hmin].
        exists [], post. rewrite app_nil_l.
        split; [rewrite Hr, Hp; reflexivity|].
        split; [intros; apply Nat.le_0_l|]. rewrite <- Hp. exact Hmin.
      * pose proof (lazy_until_close_None _ L) as Hno.
        destruct (search_cdata s) as [g|].
        -- (* a later wrapper would close behind the first marker too *)
           exfalso. destruct IH as (pre & post & Hs & _).
           assert (Hc : c :: s = (c :: pre ++ OPEN ++ g) ++ CLOSE ++ post).
           { rewrite Hs. simpl. rewrite <- !app_assoc. reflexivity. }
           rewrite Hr in Hc.
           apply (f_equal (skipn (length OPEN))) in Hc.
           rewrite skipn_OPEN, skipn_app in Hc.
           assert (Hlen : length OPEN <= length (c :: pre ++ OPEN ++ g))
             by (cbn [length]; rewrite !length_app; lia).
           replace (length OPEN - length (c :: pre ++ OPEN ++ g)) with 0
             in Hc by lia.
           cbn [skipn] in Hc.
           exact (Hno _ _ Hc).
        -- intros pre g post H. destruct pre as [|x pre].
           ++ rewrite app_nil_l in H. rewrite Hr in H.
              apply app_inv_head in H.
              exact (Hno _ _ H).
           ++ simpl in H. inversion H; subst. exact (IH _ _ _ eq_refl).
    + destruct (search_cdata s) as [g|].
      * destruct IH as (pre & post & Hs & Hfirst & Hmin).
        exists (c :: pre), post. split; [simpl; f_equal; exact Hs|].
        split; [|exact Hmin].
        intros a b Hab. destruct a as [|x a].
        -- rewrite (proj2 (startswith_iff OPEN (c :: s)) (ex_intro _ b Hab)) in E.
        discriminate.
        -- simpl in Hab. inversion Hab; subst. simpl. apply le_n_S.
           apply (Hfirst a b). assumption.
      * intros pre g post H. destruct pre as [|x pre].
        -- rewrite (proj2 (startswith_iff OPEN (c :: s)) (ex_intro _ _ H)) in E.
           discriminate.
        -- simpl in H. inversion H; subst. exact (IH _ _ _ eq_refl).
Qed.

(* ================================================================== *)
(** ** The record of a query *)

Lemma contains_iff (sub s : str) :
  contains sub s = true <-> exists a b : str, s = a ++ sub ++ b.
Proof.
  induction s as [|c s IH].
  - simpl. rewrite orb_false_r, startswith_iff. split.
    + intros [r H]. exists [], r. exact H.
    + intros (a & b & H). destruct a as [|x a]; [|discriminate].
      exists b. exact H.
  - cbn [contains]. rewrite orb_true_iff, startswith_iff, IH. split.
    + intros [[r H]|(a & b & H)].
      * exists [], r. exact H.
      * exists (c :: a), b. rewrite H. reflexivity.
    + intros (a & b & H). destruct a as [|x a].
      * left. exists b. exact H.
      * right. exists a, b. inversion H. reflexivity.
Qed.

Lemma scan_children_find (cs : list Element) :
  scan_children cs =
  match find cdata_child cs with
  | Some child =>
    match search_cdata (or_empty (text child)) with
    | Some group1 => group1
    | None => or_empty (text child)
    end
  | None => []
  end.
Proof.
  induction cs as [|child cs IH]; simpl; [reflexivity|].
  destruct (cdata_child child); [reflexivity | exact IH].
Qed.

Lemma find_first {A : Type} (f : A -> bool) (l : list A) (x : A) :
  find f l = Some x ->
  exists pre rest : list A,
    l = pre ++ x :: rest /\ f x = true /\ forallb (fun y => negb (f y)) pre = true.
Proof.
  induction l as [|y l IH]; simpl; [discriminate|].
  destruct (f y) eqn:E.
  - intros H; inversion H; subst. exists [], l. simpl. auto.
  - intros H. destruct (IH H) as (pre & rest & H1 & H2 & H3).
    exists (y :: pre), rest. simpl. rewrite E, H1. auto.
Qed.

Lemma or_empty_truthy (t : option str) :
  truthy_opt t = false -> or_empty t = [].
Proof.
  destruct t as [s|]; simpl; [|reflexivity].
  destruct (truthy s); [discriminate | reflexivity].
Qed.

Lemma truthy_false (s : str) : truthy s = false -> s = [].
Proof. destruct s; [reflexivity | discriminate]. Qed.

Lemma query_info_fields (fn qmd : str) (q : Element) :
  field (u "id") (query_info fn qmd q) = Some (VStr (get q (u "id") [])) /\
  field (u "desc") (query_info fn qmd q)
  = Some (VStr (get q (u "desc") [])) /\
  field (u "file_name") (query_info fn qmd q) = Some (VStr fn) /\
  field (u "query_map_desc") (query_info fn qmd q) = Some (VStr qmd) /\
  field (u "query") (query_info fn qmd q)
  = Some (VStr (wrap_cdata (strip (query_body q)))).
Proof. repeat split. Qed.

(** The nine spaces of the closing line. *)
Lemma wrap_cdata_text (b : str) :
  wrap_cdata b =
  u "<![CDATA[" ++ [NL] ++ b ++ [NL] ++ repeat 32%N 9 ++ u "]]>".
Proof. reflexivity. Qed.

Section RecordClaims.

Variable str_lower : str -> str.
Variable str_repr : str -> str.

(** C2 (amended).  The scan over the children of a [query] stops at the
    first child whose tag contains "CDATA" or whose text contains "CDATA".
    It takes the text of that child: with a wrapper in it, what lies between
    the first opening marker and the first closing marker behind it, and
    else the whole text.  The direct text of the element becomes the body
    when what the scan took is empty, be it that no child met the condition
    or that the child found gave nothing. *)
Theorem query_body_choice (q : Element) :
  scan_children (children q) = children_content q /\
  query_body q =
  (if truthy (children_content q) then children_content q
   else or_empty (text q)) /\
  (forall child : Element,
      find cdata_child (children q) = Some child ->
      exists pre rest : list Element,
        children q = pre ++ child :: rest /\
        cdata_child child = true /\
        forallb (fun c => negb (cdata_child c)) pre = true) /\
  (find cdata_child (children q) = None ->
   query_body q = or_empty (text q)) /\
  (forall child : Element,
      cdata_child child = true <->
      (exists a b : str, tag child = a ++ u "CDATA" ++ b) \/
      (exists t a b : str,
          text child = Some t /\ t = a ++ u "CDATA" ++ b)) /\
  (forall t : str,
      match search_cdata t with
      | Some g =>
        exists pre post : str,
          t = pre ++ OPEN ++ g ++ CLOSE ++ post /\
          (forall a b : str, t = a ++ OPEN ++ b -> length pre <= length a) /\
          (forall a b : str,
              g ++ CLOSE ++ post = a ++ CLOSE ++ b -> length g <= length a)
      | None =>
        forall pre g post : str, t <> pre ++ OPEN ++ g ++ CLOSE ++ post
      end).
Proof.
  assert (Hscan : scan_children (children q) = children_content q)
    by apply scan_children_find.
  assert (Hbody : query_body q =
                  if truthy (children_content q) then children_content q
                  else or_empty (text q)).
  { unfold query_body. rewrite Hscan.
    destruct (truthy (children_content q)) eqn:E; simpl; [reflexivity|].
    destruct (truthy_opt (text q)) eqn:E'; [reflexivity|].
    rewrite (or_empty_truthy _ E'). apply truthy_false. exact E. }
  split; [exact Hscan|]. split; [exact Hbody|].
  split; [intros child H; exact (find_first _ _ _ H)|].
  split.
  { intros H. rewrite Hbody. unfold children_content. rewrite H.
    reflexivity. }
  split; [|exact search_cdata_spec].
  intros child. unfold cdata_child.
  rewrite orb_true_iff, andb_true_iff, !contains_iff. split.
  - intros [H|[H1 (a & b & H2)]]; [left; exact H|]. right.
    destruct (text child) as [t|]; simpl in *; [|discriminate].
    destruct (truthy t); [|discriminate]. exists t, a, b. auto.
  - intros [H|(t & a & b & H1 & H2)]; [left; exact H|]. right.
    rewrite H1. simpl.
    assert (Ht : truthy t = true).
    { rewrite H2. destruct a; [vm_compute|]; reflexivity. }
    rewrite Ht. split; [reflexivity|]. exists a, b. exact H2.
Qed.

(** C3 (amended).  The descriptive fields of a stored record are the raw
    attribute values: [desc] is the [desc] attribute of the [query]
    element and [query_map_desc] the [desc] attribute of the root, each as
    read, the empty string when absent.  The SQL body is not normalised
    either: only a run of whitespace at each end is cut off. *)
Theorem descriptions_raw_body_trimmed
        (w : World) (file_path : str) (root : Element) (o : Out)
        (k : str) (q : Element)
        (H : ET_parse w file_path = Ok root)
        (Hq : find (fun q' => str_eqb (qid q') k)
                   (rev (findall root (u "query"))) = Some q) :
  exists (result : dict) (rec : value),
    parse_glue_sql_file str_lower str_repr w file_path o = (Ok result, o) /\
    entry result (module_code_of str_lower (basename file_path)) k
    = Some rec /\
    field (u "desc") rec = Some (VStr (get q (u "desc") [])) /\
    field (u "query_map_desc") rec = Some (VStr (get root (u "desc") [])) /\
    (lookup (u "desc") (attrib q) = None -> field (u "desc") rec = Some (VStr [])) /\
    exists l b r : str,
      query_body q = l ++ b ++ r /\
      forallb is_space l = true /\ forallb is_space r = true /\
      (forall (c : char) (b' : str), b = c :: b' -> is_space c = false) /\
      (forall (b' : str) (c : char), b = b' ++ [c] -> is_space c = false) /\
      field (u "query") rec = Some (VStr (wrap_cdata b)).
Proof.
  eexists _, _. split; [apply (parse_ok _ _ _ _ _ _ H)|].
  unfold entry. cbn [lookup]. rewrite str_eqb_refl. cbn [field].
  rewrite collect_lookup, Hq.
  split; [reflexivity|].
  split; [reflexivity|]. split; [reflexivity|].
  split.
  { intros Hn.
    destruct (query_info_fields (basename file_path)
                                (get root (u "desc") []) q)
      as (_ & Hd & _).
    rewrite Hd. unfold get. rewrite Hn. reflexivity. }
  destruct (strip_spec (query_body q)) as (l & r & H1 & H2 & H3 & H4 & H5).
  exists l, (strip (query_body q)), r.
  repeat split; assumption.
Qed.

(** C4.  The [query] field of a record is the body, trimmed of whitespace
    at both ends, between the line of the opening marker and a closing line
    of nine spaces and the closing marker.  The body [SELECT 1] gives
    exactly the three lines below, and a [query] with neither a child that
    meets the condition of the scan nor direct text gives an empty body
    between the same markers. *)
Theorem query_field_wrapped :
  (forall (fn qmd : str) (q : Element),
      field (u "query") (query_info fn qmd q)
      = Some (VStr (u "<![CDATA[" ++ [NL] ++ strip (query_body q) ++ [NL]
                      ++ repeat 32%N 9 ++ u "]]>"))) /\
  (forall (fn qmd : str) (q : Element),
      query_body q = u "SELECT 1" ->
      field (u "query") (query_info fn qmd q)
      = Some (VStr (u "<![CDATA[
SELECT 1
         ]]>"))) /\
  (forall (fn qmd : str) (q : Element),
      forallb (fun c => negb (cdata_child c)) (children q) = true ->
      truthy_opt (text q) = false ->
      query_body q = [] /\
      field (u "query") (query_info fn qmd q)
      = Some (VStr (u "<![CDATA[

         ]]>"))) /\
  (forall (w : World) (file_path : str) (root : Element) (o : Out)
          (k : str) (q : Element),
      ET_parse w file_path = Ok root ->
      find (fun q' => str_eqb (qid q') k)
           (rev (findall root (u "query"))) = Some q ->
      exists (result : dict) (rec : value),
        parse_glue_sql_file str_lower str_repr w file_path o
        = (Ok result, o) /\
        entry result (module_code_of str_lower (basename file_path)) k
        = Some rec /\
        field (u "query") rec
        = Some (VStr (u "<![CDATA[" ++ [NL] ++ strip (query_body q) ++ [NL]
                        ++ repeat 32%N 9 ++ u "]]>"))).
Proof.
  split; [|split; [|split]].
  - intros fn qmd q. reflexivity.
  - intros fn qmd q Hb.
    destruct (query_info_fields fn qmd q) as (_ & _ & _ & _ & ->).
    rewrite Hb. reflexivity.
  - intros fn qmd q Hc Ht.
    assert (Hb : query_body q = []).
    { unfold query_body. rewrite scan_children_find.
      destruct (find cdata_child (children q)) as [child|] eqn:F.
      - destruct (find_some _ _ F) as [Hin Htrue].
        rewrite forallb_forall in Hc. specialize (Hc _ Hin).
        rewrite Htrue in Hc. discriminate.
      - simpl. rewrite Ht. reflexivity. }
    split; [exact Hb|].
    destruct (query_info_fields fn qmd q) as (_ & _ & _ & _ & ->).
    rewrite Hb. reflexivity.
  - intros w file_path root o k q H Hq.
    eexists _, _. split; [apply (parse_ok _ _ _ _ _ _ H)|].
    unfold entry. cbn [lookup]. rewrite str_eqb_refl. cbn [field].
    rewrite collect_lookup, Hq. split; reflexivity.
Qed.

End RecordClaims.

(* ================================================================== *)
(** ** The file converter and the driver *)

Section DriverLemmas.

Variable str_lower : str -> str.
Variable str_repr : str -> str.


(** The dictionary of the parser does not depend on what was printed and
    written before. *)
Lemma parse_result_eq (w : World) (file_path : str) (o : Out) :
  exists (o1 : Out) (lines : list str),
    parse_glue_sql_file str_lower str_repr w file_path o
    = (Ok (parse_result str_lower str_repr w file_path), o1) /\
    written o1 = written o /\ stdout o1 = stdout o ++ lines.
Proof.
  unfold parse_result.
  destruct (ET_parse w file_path) as [root|e] eqn:E.
  - rewrite (parse_ok _ _ _ _ _ Out0 E). eexists _, [].
    split; [apply (parse_ok _ _ _ _ _ _ E)|].
    split; [reflexivity | symmetry; apply app_nil_r].
  - rewrite (parse_raise _ _ _ _ _ Out0 E). eexists _, [_].
    split; [apply (parse_raise _ _ _ _ _ _ E)|]. split; reflexivity.
Qed.

Lemma convert_missing (w : World) (input_file : str) (out : option str)
      (o : Out) :
  os_path_exists w input_file = false ->
  convert_xml_to_json str_lower str_repr w input_file out o =
  (Ok false,
   mkOut (stdout o ++ [u "오류: 입력 파일 '" ++ input_file
                         ++ u "'을 찾을 수 없습니다."])
         (written o)).
Proof.
  intros H. unfold convert_xml_to_json, try_except. rewrite H. reflexivity.
Qed.

Lemma convert_written (w : World) (input_file : str) (out : option str)
      (o o1 : Out) (d : dict) :
  os_path_exists w input_file = true ->
  parse_glue_sql_file str_lower str_repr w input_file o = (Ok d, o1) ->
  open_w w (output_path input_file out) = Ok tt ->
  json_dump w (output_path input_file out) d = Ok tt ->
  convert_xml_to_json str_lower str_repr w input_file out o =
  (Ok true,
   mkOut (stdout o1 ++ [u "변환 완료: " ++ input_file ++ u " → "
                          ++ output_path input_file out])
         (dict_set (output_path input_file out) (Dumped d) (written o1))).
Proof.
  intros Hex Hp Hw Hj. unfold convert_xml_to_json, try_except, bind.
  rewrite Hex. simpl. rewrite Hp. unfold dump_to, bind, lift.
  rewrite Hw, Hj. reflexivity.
Qed.

Lemma convert_write_fails (w : World) (input_file : str) (out : option str)
      (o o1 : Out) (d : dict) (e : exn) :
  os_path_exists w input_file = true ->
  parse_glue_sql_file str_lower str_repr w input_file o = (Ok d, o1) ->
  open_w w (output_path input_file out) = Raise e ->
  convert_xml_to_json str_lower str_repr w input_file out o =
  (Ok false,
   mkOut (stdout o1 ++ [u "변환 오류: " ++ exn_str str_repr e])
         (written o1)).
Proof.
  intros Hex Hp Hw. unfold convert_xml_to_json, try_except, bind.
  rewrite Hex. simpl. rewrite Hp. unfold dump_to, bind, lift. rewrite Hw.
  reflexivity.
Qed.

Lemma convert_dump_fails (w : World) (input_file : str) (out : option str)
      (o o1 : Out) (d : dict) (e : exn) :
  os_path_exists w input_file = true ->
  parse_glue_sql_file str_lower str_repr w input_file o = (Ok d, o1) ->
  open_w w (output_path input_file out) = Ok tt ->
  json_dump w (output_path input_file out) d = Raise e ->
  convert_xml_to_json str_lower str_repr w input_file out o =
  (Ok false,
   mkOut (stdout o1 ++ [u "변환 오류: " ++ exn_str str_repr e])
         (dict_set (output_path input_file out) Truncated (written o1))).
Proof.
  intros Hex Hp Hw Hj. unfold convert_xml_to_json, try_except, bind.
  rewrite Hex. simpl. rewrite Hp. unfold dump_to, bind, lift.
  rewrite Hw, Hj. reflexivity.
Qed.

(** What a conversion does, whatever the output argument. *)
Lemma convert_outcome (w : World) (input_file : str) (out : option str)
      (o : Out) :
  exists o' : Out,
    convert_xml_to_json str_lower str_repr w input_file out o
    = (Ok (convert_ok str_lower str_repr w input_file out), o') /\
    (exists lines : list str, stdout o' = stdout o ++ lines /\ lines <> []) /\
    (convert_ok str_lower str_repr w input_file out = false ->
     written o' = written o \/
     (open_w w (output_path input_file out) = Ok tt /\
      written o' = dict_set (output_path input_file out) Truncated
                            (written o))) /\
    (convert_ok str_lower str_repr w input_file out = true ->
     written o' = dict_set (output_path input_file out)
                           (Dumped (parse_result str_lower str_repr w
                                                 input_file))
                           (written o)).
Proof.
  unfold convert_ok. destruct (os_path_exists w input_file) eqn:Hex.
  - destruct (parse_result_eq w input_file o) as (o1 & lines & Hp & Hw & Hs).
    destruct (open_w w (output_path input_file out)) as [[]|e] eqn:Ho.
    + destruct (json_dump w (output_path input_file out)
                          (parse_result str_lower str_repr w input_file))
        as [[]|e] eqn:Hj.
      * eexists. split; [apply (convert_written _ _ _ _ _ _ Hex Hp Ho Hj)|].
        cbn [stdout written andb]. split; [|split; [discriminate|]].
        -- eexists (lines ++ [_]). rewrite Hs, <- app_assoc.
           split; [reflexivity|]. destruct lines; discriminate.
        -- intros _. rewrite Hw. reflexivity.
      * eexists.
        split; [apply (convert_dump_fails _ _ _ _ _ _ _ Hex Hp Ho Hj)|].
        cbn [stdout written andb]. split; [|split; [|discriminate]].
        -- eexists (lines ++ [_]). rewrite Hs, <- app_assoc.
           split; [reflexivity|]. destruct lines; discriminate.
        -- intros _. right. rewrite Hw. split; reflexivity.
    + eexists.
      split; [apply (convert_write_fails _ _ _ _ _ _ _ Hex Hp Ho)|].
      cbn [stdout written andb]. split; [|split; [|discriminate]].
      * eexists (lines ++ [_]). rewrite Hs, <- app_assoc.
        split; [reflexivity|]. destruct lines; discriminate.
      * intros _. left. exact Hw.
  - eexists. split; [apply convert_missing; exact Hex|].
    cbn [stdout written andb]. split; [|split; [|discriminate]].
    + eexists [_]. split; [reflexivity | discriminate].
    + intros _. left. reflexivity.
Qed.


End DriverLemmas.

(** *** The derived output path *)





Section DriverClaims.

Variable str_lower : str -> str.
Variable str_repr : str -> str.



End DriverClaims.

(* ================================================================== *)
(** ** The text normaliser *)

(** *** [re.sub], step by step *)

Lemma sub_go_skip (m : str -> option nat) (repl : str) (s : str) :
  forall k : nat, sub_go m repl k s = sub_go m repl 0 (skipn k s).
Proof.
  induction s as [|c s IH]; intros [|k]; try reflexivity.
  cbn [sub_go skipn]. apply IH.
Qed.

Lemma sub_match (m : str -> option nat) (repl : str) (c : char) (s : str)
      (n : nat) :
  m (c :: s) = Some n -> 0 < n ->
  sub m repl (c :: s) = repl ++ sub m repl (skipn n (c :: s)).
Proof.
  intros Hm Hn. unfold sub. cbn [sub_go]. rewrite Hm.
  destruct n as [|k]; [lia|]. rewrite sub_go_skip. reflexivity.
Qed.

Lemma sub_no_match (m : str -> option nat) (repl : str) (c : char) (s : str) :
  m (c :: s) = None ->
  sub m repl (c :: s) = c :: sub m repl s.
Proof.
  intros Hm. unfold sub. cbn [sub_go]. rewrite Hm. reflexivity.
Qed.

Lemma skipn_take_while (f : char -> bool) (s : str) :
  skipn (length (take_while f s)) s = drop_while f s.
Proof.
  induction s as [|c s IH]; simpl; [reflexivity|].
  destruct (f c); simpl; [exact IH | reflexivity].
Qed.

Lemma drop_while_length (f : char -> bool) (s : str) :
  length (drop_while f s) <= length s.
Proof.
  induction s as [|c s IH]; simpl; [lia|].
  destruct (f c); simpl; lia.
Qed.

Lemma head_space_drop_while (s : str) :
  head_space (drop_while is_space s) = false.
Proof.
  destruct (drop_while is_space s) as [|c r] eqn:E; [reflexivity|].
  simpl. exact (drop_while_head _ _ _ _ E).
Qed.

Lemma drop_while_app (y z : str) :
  head_space z = false ->
  drop_while is_space (y ++ z) = drop_while is_space y ++ z.
Proof.
  intros Hz. induction y as [|c y IH]; simpl.
  - destruct z as [|x z]; [reflexivity|]. simpl in Hz. simpl. rewrite Hz.
    reflexivity.
  - destruct (is_space c); [exact IH | reflexivity].
Qed.

Lemma drop_while_app_l (y z : str) :
  forallb is_space y = false ->
  drop_while is_space (y ++ z) = drop_while is_space y ++ z.
Proof.
  induction y as [|c y IH]; simpl; [discriminate|].
  destruct (is_space c); simpl; [exact IH | reflexivity].
Qed.

Lemma drop_while_all (y : str) :
  forallb is_space y = true -> drop_while is_space y = [].
Proof.
  induction y as [|c y IH]; simpl; [reflexivity|].
  destruct (is_space c); simpl; [exact IH | discriminate].
Qed.

(** *** The three patterns at the head of a text *)

Lemma m_spaces_cons (c : char) (s : str) :
  m_spaces (c :: s) =
  if is_space c then Some (S (length (take_while is_space s))) else None.
Proof. unfold m_spaces. simpl. destruct (is_space c); reflexivity. Qed.

Lemma collapse_cons_space (c : char) (s : str) :
  is_space c = true ->
  collapse_spaces (c :: s) = 32%N :: collapse_spaces (drop_while is_space s).
Proof.
  intros Hc. unfold collapse_spaces.
  rewrite (sub_match _ _ _ _ (S (length (take_while is_space s))));
    [| rewrite m_spaces_cons, Hc; reflexivity | lia].
  cbn [skipn]. rewrite skipn_take_while. reflexivity.
Qed.

Lemma collapse_cons_other (c : char) (s : str) :
  is_space c = false ->
  collapse_spaces (c :: s) = c :: collapse_spaces s.
Proof.
  intros Hc. unfold collapse_spaces. apply sub_no_match.
  rewrite m_spaces_cons, Hc. reflexivity.
Qed.

Lemma remove_open_match (r : str) :
  remove_open (OPEN ++ r) = remove_open (drop_while is_space r).
Proof.
  unfold remove_open.
  assert (Hm : m_open (OPEN ++ r)
               = Some (length OPEN + length (take_while is_space r))).
  { unfold m_open. rewrite startswith_app, skipn_OPEN. reflexivity. }
  change (OPEN ++ r) with (60%N :: skipn 1 OPEN ++ r) in *.
  rewrite (sub_match _ _ _ _ _ Hm) by (rewrite length_OPEN; lia).
  change (60%N :: skipn 1 OPEN ++ r) with (OPEN ++ r).
  rewrite skipn_app, length_OPEN.
  replace (skipn (9 + length (take_while is_space r)) OPEN) with (@nil char)
    by (symmetry; apply skipn_all2; rewrite length_OPEN; lia).
  replace (9 + length (take_while is_space r) - 9)
    with (length (take_while is_space r)) by lia.
  rewrite skipn_take_while. reflexivity.
Qed.

Lemma remove_open_other (c : char) (s : str) :
  startswith OPEN (c :: s) = false ->
  remove_open (c :: s) = c :: remove_open s.
Proof.
  intros H. unfold remove_open. apply sub_no_match. unfold m_open.
  rewrite H. reflexivity.
Qed.

Lemma remove_close_match (c : char) (s : str) :
  startswith CLOSE (drop_while is_space (c :: s)) = true ->
  exists r : str,
    drop_while is_space (c :: s) = CLOSE ++ r /\
    remove_close (c :: s) = remove_close r.
Proof.
  intros H. destruct (proj1 (startswith_iff _ _) H) as [r Hr].
  exists r. split; [exact Hr|]. unfold remove_close.
  assert (Hm : m_close (c :: s)
               = Some (length (take_while is_space (c :: s)) + length CLOSE)).
  { unfold m_close. rewrite skipn_take_while, H. reflexivity. }
  rewrite (sub_match _ _ _ _ _ Hm) by (change (length CLOSE) with 3; lia).
  rewrite Nat.add_comm, <- skipn_skipn, skipn_take_while, Hr.
  rewrite skipn_app_exact. reflexivity.
Qed.

Lemma remove_close_other (c : char) (s : str) :
  startswith CLOSE (drop_while is_space (c :: s)) = false ->
  remove_close (c :: s) = c :: remove_close s.
Proof.
  intros H. unfold remove_close. apply sub_no_match. unfold m_close.
  rewrite skipn_take_while, H. reflexivity.
Qed.

(** *** Collapsed texts *)

Lemma collapsed_app_r (a b : str) :
  collapsed (a ++ b) = true -> collapsed b = true.
Proof.
  induction a as [|c a IH]; simpl; [tauto|].
  rewrite andb_true_iff. intros [_ H]. exact (IH H).
Qed.

Lemma head_space_app (a b : str) :
  head_space (a ++ b) = false -> head_space a = false.
Proof. destruct a; simpl; [reflexivity | tauto]. Qed.

Lemma collapsed_app_l (a b : str) :
  collapsed (a ++ b) = true -> collapsed a = true.
Proof.
  induction a as [|c a IH]; simpl; [reflexivity|].
  rewrite !andb_true_iff, !orb_true_iff, !andb_true_iff, !negb_true_iff.
  intros [[H|[H1 H2]] H3]; (split; [|exact (IH H3)]).
  - left; exact H.
  - right. split; [exact H1 | exact (head_space_app _ _ H2)].
Qed.

Lemma collapsed_drop_while (s : str) :
  collapsed s = true -> collapsed (drop_while is_space s) = true.
Proof.
  intros H. rewrite <- (take_drop_while is_space s) in H.
  exact (collapsed_app_r _ _ H).
Qed.

Lemma collapsed_strip (s : str) :
  collapsed s = true -> collapsed (strip s) = true.
Proof.
  intros H. destruct (strip_spec s) as (l & r & Hs & _).
  rewrite Hs in H. exact (collapsed_app_l _ _ (collapsed_app_r _ _ H)).
Qed.

(** What [collapsed] says, position by position. *)
Lemma collapsed_spec (s : str) :
  collapsed s = true ->
  (forall (a : str) (c : char) (b : str),
      s = a ++ c :: b -> is_space c = true -> c = 32%N) /\
  (forall (a : str) (x y : char) (b : str),
      s = a ++ x :: y :: b -> is_space x = true -> is_space y = false).
Proof.
  intros H. split.
  - intros a c b Hs Hc. rewrite Hs in H. apply collapsed_app_r in H.
    simpl in H. rewrite Hc in H. simpl in H.
    apply andb_true_iff in H. destruct H as [H _].
    apply andb_true_iff in H. destruct H as [H _].
    apply char_eqb_eq. exact H.
  - intros a x y b Hs Hx. rewrite Hs in H. apply collapsed_app_r in H.
    simpl in H. rewrite Hx in H. simpl in H.
    apply andb_true_iff in H. destruct H as [H _].
    apply andb_true_iff in H. destruct H as [_ H].
    apply negb_true_iff in H. exact H.
Qed.

Lemma is_space_32 : is_space 32%N = true.
Proof. reflexivity. Qed.

Lemma collapse_spaces_collapsed_aux (n : nat) :
  forall s : str,
    length s <= n ->
    collapsed (collapse_spaces s) = true /\
    head_space (collapse_spaces s) = head_space s.
Proof.
  induction n as [|n IH]; intros s Hn.
  - destruct s; [split; reflexivity | simpl in Hn; lia].
  - destruct s as [|c s]; [split; reflexivity|].
    destruct (is_space c) eqn:Hc.
    + rewrite (collapse_cons_space _ _ Hc).
      destruct (IH (drop_while is_space s)) as [H1 H2].
      { pose proof (drop_while_length is_space s). simpl in Hn. lia. }
      cbn [collapsed head_space]. rewrite is_space_32, H1, H2,
        head_space_drop_while, Hc.
      split; reflexivity.
    + rewrite (collapse_cons_other _ _ Hc).
      destruct (IH s) as [H1 H2]; [simpl in Hn; lia|].
      cbn [collapsed head_space]. rewrite Hc, H1. split; reflexivity.
Qed.

Lemma collapse_spaces_collapsed (s : str) :
  collapsed (collapse_spaces s) = true.
Proof. exact (proj1 (collapse_spaces_collapsed_aux (length s) s (le_n _))). Qed.

Lemma collapse_spaces_head (s : str) :
  head_space (collapse_spaces s) = head_space s.
Proof. exact (proj2 (collapse_spaces_collapsed_aux (length s) s (le_n _))). Qed.

Lemma collapsed_cons (c : char) (s : str) :
  collapsed (c :: s) = true ->
  (is_space c = true -> head_space s = false) /\ collapsed s = true.
Proof.
  simpl. rewrite andb_true_iff. intros [H1 H2]. split; [|exact H2].
  intros Hc. rewrite Hc in H1. simpl in H1.
  apply andb_true_iff in H1. destruct H1 as [_ H1].
  apply negb_true_iff. exact H1.
Qed.

Lemma collapsed_cons_intro (c : char) (s r : str) :
  collapsed (c :: s) = true -> collapsed r = true ->
  (is_space c = true -> head_space r = false) ->
  collapsed (c :: r) = true.
Proof.
  simpl. rewrite !andb_true_iff. intros [H1 _] Hr Hh.
  split; [|exact Hr].
  destruct (is_space c) eqn:Hc; [|reflexivity]. simpl in *.
  apply andb_true_iff in H1. destruct H1 as [H1 _]. rewrite H1.
  rewrite (Hh eq_refl). reflexivity.
Qed.

Lemma remove_open_collapsed_aux (n : nat) :
  forall s : str,
    length s <= n -> collapsed s = true ->
    collapsed (remove_open s) = true /\
    (head_space s = false -> head_space (remove_open s) = false).
Proof.
  induction n as [|n IH]; intros s Hn Hs.
  - destruct s; [split; reflexivity | simpl in Hn; lia].
  - destruct s as [|c s]; [split; reflexivity|].
    destruct (startswith OPEN (c :: s)) eqn:E.
    + destruct (proj1 (startswith_iff _ _) E) as [r Hr].
      rewrite Hr, remove_open_match.
      assert (Hlen : length (drop_while is_space r) <= n).
      { pose proof (drop_while_length is_space r).
        apply (f_equal (@length char)) in Hr.
        rewrite length_app, length_OPEN in Hr. simpl in Hr, Hn. lia. }
      assert (Hc : collapsed (drop_while is_space r) = true).
      { apply collapsed_drop_while. rewrite Hr in Hs.
        exact (collapsed_app_r _ _ Hs). }
      destruct (IH _ Hlen Hc) as [H1 H2].
      split; [exact H1|]. intros _. apply H2. apply head_space_drop_while.
    + rewrite (remove_open_other _ _ E).
      destruct (collapsed_cons _ _ Hs) as [Hh Hs'].
      destruct (IH s) as [H1 H2]; [simpl in Hn; lia | exact Hs' |].
      split; [|intros H; exact H].
      apply (collapsed_cons_intro c s); [exact Hs | exact H1|].
      intros Hc. apply H2. exact (Hh Hc).
Qed.

Lemma remove_open_collapsed (s : str) :
  collapsed s = true -> collapsed (remove_open s) = true.
Proof.
  intros H. exact (proj1 (remove_open_collapsed_aux _ s (le_n _) H)).
Qed.

Lemma skipn_suffix {A : Type} (n : nat) (l : list A) :
  exists a : list A, l = a ++ skipn n l.
Proof. exists (firstn n l). symmetry. apply firstn_skipn. Qed.

Lemma remove_close_collapsed_aux (n : nat) :
  forall s : str,
    length s <= n -> collapsed s = true ->
    collapsed (remove_close s) = true.
Proof.
  induction n as [|n IH]; intros s Hn Hs.
  - destruct s; [reflexivity | simpl in Hn; lia].
  - destruct s as [|c s]; [reflexivity|].
    destruct (startswith CLOSE (drop_while is_space (c :: s))) eqn:E.
    + destruct (remove_close_match _ _ E) as (r & Hr & ->).
      assert (Hd : collapsed (CLOSE ++ r) = true)
        by (rewrite <- Hr; apply collapsed_drop_while; exact Hs).
      apply IH; [|exact (collapsed_app_r _ _ Hd)].
      pose proof (drop_while_length is_space (c :: s)) as Hl.
      rewrite Hr, length_app in Hl. change (length CLOSE) with 3 in Hl.
      simpl in Hl, Hn. lia.
    + rewrite (remove_close_other _ _ E).
      destruct (collapsed_cons _ _ Hs) as [Hh Hs'].
      assert (H1 : collapsed (remove_close s) = true)
        by (apply IH; [simpl in Hn; lia | exact Hs']).
      apply (collapsed_cons_intro c s); [exact Hs | exact H1|].
      intros Hc. specialize (Hh Hc).
      destruct s as [|x s]; [reflexivity|]. simpl in Hh.
      assert (Ex : startswith CLOSE (drop_while is_space (x :: s)) = false).
      { simpl in E. rewrite Hc in E. exact E. }
      rewrite (remove_close_other _ _ Ex). simpl. exact Hh.
Qed.

Lemma remove_close_collapsed (s : str) :
  collapsed s = true -> collapsed (remove_close s) = true.
Proof. intros H. exact (remove_close_collapsed_aux _ s (le_n _) H). Qed.

(** *** Collapsing, stripping and concatenation *)

Lemma collapse_ind (P : str -> str -> Prop) :
  P [] [] ->
  (forall (c : char) (s : str),
      is_space c = true ->
      P (drop_while is_space s) (collapse_spaces (drop_while is_space s)) ->
      P (c :: s) (32%N :: collapse_spaces (drop_while is_space s))) ->
  (forall (c : char) (s : str),
      is_space c = false ->
      P s (collapse_spaces s) -> P (c :: s) (c :: collapse_spaces s)) ->
  forall s : str, P s (collapse_spaces s).
Proof.
  intros H0 Hs Ho.
  assert (H : forall (n : nat) (s : str),
             length s <= n -> P s (collapse_spaces s)).
  { induction n as [|n IH]; intros s Hn.
    - destruct s; [exact H0 | simpl in Hn; lia].
    - destruct s as [|c s]; [exact H0|].
      destruct (is_space c) eqn:Hc.
      + rewrite (collapse_cons_space _ _ Hc). apply Hs; [exact Hc|].
        apply IH. pose proof (drop_while_length is_space s).
        simpl in Hn. lia.
      + rewrite (collapse_cons_other _ _ Hc). apply Ho; [exact Hc|].
        apply IH. simpl in Hn. lia. }
  intros s. exact (H (length s) s (le_n _)).
Qed.

Lemma drop_while_in (f : char -> bool) (s : str) (x : char) :
  In x (drop_while f s) -> In x s.
Proof.
  intros H. rewrite <- (take_drop_while f s). apply in_or_app. right.
  exact H.
Qed.

Lemma strip_in (s : str) (x : char) : In x (strip s) -> In x s.
Proof.
  intros H. destruct (strip_spec s) as (l & r & Hs & _). rewrite Hs.
  apply in_or_app. right. apply in_or_app. left. exact H.
Qed.

Lemma collapse_in (s : str) (x : char) :
  In x (collapse_spaces s) -> x = 32%N \/ In x s.
Proof.
  revert x. apply (collapse_ind (fun s r =>
    forall x : char, In x r -> x = 32%N \/ In x s)).
  - intros x [].
  - intros c t Hc IH x [Hx|Hx]; [left; symmetry; exact Hx|].
    destruct (IH x Hx) as [H|H]; [left; exact H|].
    right. right. exact (drop_while_in _ _ _ H).
  - intros c t Hc IH x [Hx|Hx]; [right; left; exact Hx|].
    destruct (IH x Hx) as [H|H]; [left; exact H | right; right; exact H].
Qed.

Lemma drop_while_id (s : str) :
  head_space s = false -> drop_while is_space s = s.
Proof.
  destruct s as [|c s]; simpl; [reflexivity|]. intros ->. reflexivity.
Qed.

Lemma drop_while_app_all (a s : str) :
  forallb is_space a = true ->
  drop_while is_space (a ++ s) = drop_while is_space s.
Proof.
  induction a as [|c a IH]; simpl; [reflexivity|].
  destruct (is_space c); simpl; [exact IH | discriminate].
Qed.

Lemma ends_nonspace_tail (c : char) (s : str) :
  ends_nonspace (c :: s) -> ends_nonspace s.
Proof.
  unfold ends_nonspace. simpl. apply head_space_app.
Qed.

Lemma ends_nonspace_not_all (s : str) :
  s <> [] -> ends_nonspace s -> forallb is_space s = false.
Proof.
  unfold ends_nonspace. intros Hs H. rewrite <- forallb_rev.
  destruct (rev s) as [|x r] eqn:E.
  - apply (f_equal (@rev char)) in E. rewrite rev_involutive in E.
    contradiction.
  - simpl in *. rewrite H. reflexivity.
Qed.

Lemma ends_nonspace_snoc (b : str) (x : char) :
  is_space x = false -> ends_nonspace (b ++ [x]).
Proof.
  intros H. unfold ends_nonspace. rewrite rev_app_distr. exact H.
Qed.

Lemma ends_nonspace_drop_while (s : str) :
  ends_nonspace s -> ends_nonspace (drop_while is_space s).
Proof.
  induction s as [|c s IH]; simpl; [tauto|].
  destruct (is_space c); [|tauto].
  intros H. exact (IH (ends_nonspace_tail _ _ H)).
Qed.

Lemma rstrip_id (s : str) : ends_nonspace s -> rstrip s = s.
Proof.
  intros H. unfold rstrip. rewrite (drop_while_id _ H).
  apply rev_involutive.
Qed.

Lemma rstrip_app_ws (x b : str) :
  forallb is_space b = true -> rstrip (x ++ b) = rstrip x.
Proof.
  intros H. unfold rstrip. rewrite rev_app_distr, drop_while_app_all;
    [reflexivity | rewrite forallb_rev; exact H].
Qed.

Lemma rstrip_ends (s : str) : ends_nonspace (rstrip s).
Proof.
  unfold ends_nonspace, rstrip. rewrite rev_involutive.
  apply head_space_drop_while.
Qed.

Lemma strip_ends (s : str) :
  head_space (strip s) = false /\ ends_nonspace (strip s).
Proof.
  split; [|apply rstrip_ends].
  destruct (strip s) as [|c b] eqn:E; [reflexivity|].
  destruct (strip_spec s) as (_ & _ & _ & _ & _ & H & _).
  simpl. exact (H c b E).
Qed.

Lemma strip_id (s : str) :
  head_space s = false -> ends_nonspace s -> strip s = s.
Proof.
  intros H1 H2. unfold strip, lstrip. rewrite (drop_while_id _ H1).
  exact (rstrip_id _ H2).
Qed.

Lemma strip_strip (s : str) : strip (strip s) = strip s.
Proof. destruct (strip_ends s) as [H1 H2]. exact (strip_id _ H1 H2). Qed.

Lemma strip_padded (a t b : str) :
  forallb is_space a = true -> forallb is_space b = true ->
  strip (a ++ t ++ b) = strip t.
Proof.
  intros Ha Hb. unfold strip, lstrip. rewrite (drop_while_app_all _ _ Ha).
  destruct (forallb is_space t) eqn:Ht.
  - rewrite (drop_while_all t Ht).
    rewrite drop_while_all; [reflexivity|].
    rewrite forallb_app, Ht, Hb. reflexivity.
  - rewrite (drop_while_app_l _ _ Ht). apply rstrip_app_ws. exact Hb.
Qed.

(** Collapsing goes through a concatenation whose seam is not inside a run
    of whitespace. *)
Lemma collapse_app (y z : str) :
  ends_nonspace y \/ head_space z = false ->
  collapse_spaces (y ++ z) = collapse_spaces y ++ collapse_spaces z.
Proof.
  revert y. apply (collapse_ind (fun y r =>
    ends_nonspace y \/ head_space z = false ->
    collapse_spaces (y ++ z) = r ++ collapse_spaces z)).
  - reflexivity.
  - intros c s Hc IH Hyz.
    change ((c :: s) ++ z) with (c :: s ++ z).
    rewrite (collapse_cons_space _ _ Hc).
    assert (Hd : drop_while is_space (s ++ z) = drop_while is_space s ++ z).
    { destruct Hyz as [Hy|Hz]; [|exact (drop_while_app _ _ Hz)].
      apply drop_while_app_l.
      assert (Hall : forallb is_space (c :: s) = false)
        by (apply ends_nonspace_not_all; [discriminate | exact Hy]).
      simpl in Hall. rewrite Hc in Hall. exact Hall. }
    rewrite Hd, IH; [reflexivity|].
    destruct Hyz as [Hy|Hz]; [left | right; exact Hz].
    apply ends_nonspace_drop_while. exact (ends_nonspace_tail _ _ Hy).
  - intros c s Hc IH Hyz.
    change ((c :: s) ++ z) with (c :: s ++ z).
    rewrite (collapse_cons_other _ _ Hc), IH; [reflexivity|].
    destruct Hyz as [Hy|Hz]; [left | right; exact Hz].
    exact (ends_nonspace_tail _ _ Hy).
Qed.

Lemma collapse_all_ws (r : str) :
  forallb is_space r = true -> forallb is_space (collapse_spaces r) = true.
Proof.
  destruct r as [|c r]; [reflexivity|]. simpl.
  rewrite andb_true_iff. intros [Hc Hr].
  rewrite (collapse_cons_space _ _ Hc), (drop_while_all _ Hr). reflexivity.
Qed.

Lemma collapse_ends (y : str) :
  ends_nonspace y -> ends_nonspace (collapse_spaces y).
Proof.
  intros H. destruct y as [|c y] using rev_ind; [exact H|].
  assert (Hc : is_space c = false).
  { unfold ends_nonspace in H. rewrite rev_app_distr in H. exact H. }
  rewrite collapse_app by (right; exact Hc).
  rewrite (collapse_cons_other _ _ Hc).
  apply ends_nonspace_snoc. exact Hc.
Qed.

Lemma lstrip_collapse (s : str) :
  lstrip (collapse_spaces s) = collapse_spaces (lstrip s).
Proof.
  unfold lstrip. destruct s as [|c s]; [reflexivity|].
  destruct (is_space c) eqn:Hc.
  - rewrite (collapse_cons_space _ _ Hc). simpl. rewrite Hc.
    apply drop_while_id. rewrite collapse_spaces_head.
    apply head_space_drop_while.
  - rewrite (collapse_cons_other _ _ Hc). simpl. rewrite Hc.
    symmetry. apply collapse_cons_other. exact Hc.
Qed.

Lemma rstrip_collapse (s : str) :
  rstrip (collapse_spaces s) = collapse_spaces (rstrip s).
Proof.
  destruct (rstrip_spec s) as (r & Hs & Hr & _).
  rewrite Hs at 1.
  rewrite collapse_app by (left; apply rstrip_ends).
  rewrite rstrip_app_ws by (apply collapse_all_ws; exact Hr).
  apply rstrip_id. apply collapse_ends. apply rstrip_ends.
Qed.

Lemma strip_collapse (s : str) :
  strip (collapse_spaces s) = collapse_spaces (strip s).
Proof. unfold strip. rewrite lstrip_collapse. apply rstrip_collapse. Qed.

(** *** Texts with and without markers *)

Lemma startswith_OPEN_head (c : char) (s : str) :
  c <> 60%N -> startswith OPEN (c :: s) = false.
Proof.
  intros H. change OPEN with (60%N :: skipn 1 OPEN). cbn [startswith].
  destruct (char_eqb 60%N c) eqn:E; [|reflexivity].
  apply char_eqb_eq in E. congruence.
Qed.

Lemma startswith_CLOSE_head (c : char) (s : str) :
  c <> 93%N -> startswith CLOSE (c :: s) = false.
Proof.
  intros H. change CLOSE with (93%N :: skipn 1 CLOSE). cbn [startswith].
  destruct (char_eqb 93%N c) eqn:E; [|reflexivity].
  apply char_eqb_eq in E. congruence.
Qed.

Lemma remove_open_plain (s : str) : ~ In 60%N s -> remove_open s = s.
Proof.
  induction s as [|c s IH]; intros H; [reflexivity|].
  rewrite remove_open_other.
  - rewrite IH; [reflexivity|]. intros Hin. apply H. right. exact Hin.
  - apply startswith_OPEN_head. intros ->. apply H. left. reflexivity.
Qed.

Lemma startswith_CLOSE_plain (s : str) :
  ~ In 93%N s -> startswith CLOSE (drop_while is_space s) = false.
Proof.
  intros H. destruct (drop_while is_space s) as [|x r] eqn:E; [reflexivity|].
  apply startswith_CLOSE_head. intros ->. apply H.
  apply (drop_while_in is_space). rewrite E. left. reflexivity.
Qed.

Lemma remove_close_plain (s : str) : ~ In 93%N s -> remove_close s = s.
Proof.
  induction s as [|c s IH]; intros H; [reflexivity|].
  rewrite remove_close_other.
  - rewrite IH; [reflexivity|]. intros Hin. apply H. right. exact Hin.
  - apply startswith_CLOSE_plain. exact H.
Qed.

Lemma remove_close_ws_marker (r : str) :
  forallb is_space r = true -> remove_close (r ++ CLOSE) = [].
Proof.
  intros Hr.
  assert (Hd : drop_while is_space (r ++ CLOSE) = CLOSE ++ []).
  { rewrite (drop_while_app_all _ _ Hr). reflexivity. }
  destruct (r ++ CLOSE) as [|c t] eqn:E.
  - destruct r; discriminate.
  - destruct (remove_close_match c t) as (r' & Hr' & ->).
    + rewrite Hd. reflexivity.
    + rewrite Hd in Hr'. apply app_inv_head in Hr'. subst r'. reflexivity.
Qed.

Lemma remove_close_body (y0 r : str) :
  ends_nonspace y0 -> ~ In 93%N y0 -> forallb is_space r = true ->
  remove_close (y0 ++ r ++ CLOSE) = y0.
Proof.
  intros He Hy0 Hr. induction y0 as [|c y0 IH].
  - simpl. exact (remove_close_ws_marker _ Hr).
  - change ((c :: y0) ++ r ++ CLOSE) with (c :: y0 ++ r ++ CLOSE).
    rewrite remove_close_other.
    + rewrite IH; [reflexivity | exact (ends_nonspace_tail _ _ He) |].
      intros Hin. apply Hy0. right. exact Hin.
    + change (c :: y0 ++ r ++ CLOSE) with ((c :: y0) ++ r ++ CLOSE).
      rewrite drop_while_app_l
        by (apply ends_nonspace_not_all; [discriminate | exact He]).
      destruct (drop_while is_space (c :: y0)) as [|x t] eqn:E.
      * exfalso.
        assert (Hall : forallb is_space (c :: y0) = false)
          by (apply ends_nonspace_not_all; [discriminate | exact He]).
        rewrite <- (take_drop_while is_space (c :: y0)), E, app_nil_r,
          take_while_all in Hall.
        discriminate.
      * apply startswith_CLOSE_head. intros ->. apply Hy0.
        apply (drop_while_in is_space). rewrite E. left. reflexivity.
Qed.

(** The closing marker behind a text without brackets goes away with the
    whitespace in front of it. *)
Lemma remove_close_at_end (y : str) :
  ~ In 93%N y -> remove_close (y ++ CLOSE) = rstrip y.
Proof.
  intros Hy. destruct (rstrip_spec y) as (r & Hs & Hr & _).
  rewrite Hs at 1. rewrite <- app_assoc.
  apply remove_close_body; [apply rstrip_ends | | exact Hr].
  intros Hin. apply Hy. rewrite Hs. apply in_or_app. left. exact Hin.
Qed.

Lemma clean_multiline_text_eq (t : str) :
  clean_multiline_text t =
  strip (remove_close (remove_open (collapse_spaces (strip t)))).
Proof. destruct t; reflexivity. Qed.

Lemma not_in_collapse (x : char) (s : str) :
  x <> 32%N -> ~ In x s -> ~ In x (collapse_spaces s).
Proof.
  intros H1 H2 Hin. destruct (collapse_in _ _ Hin); contradiction.
Qed.

Lemma not_in_ws (x : char) (a : str) :
  is_space x = false -> forallb is_space a = true -> ~ In x a.
Proof.
  intros Hx Ha Hin. rewrite forallb_forall in Ha.
  rewrite (Ha x Hin) in Hx. discriminate.
Qed.

(** A text without [<] and without [[]]] is only trimmed and collapsed. *)
Lemma clean_plain (t : str) :
  ~ In 60%N t -> ~ In 93%N t ->
  clean_multiline_text t = collapse_spaces (strip t).
Proof.
  intros H1 H2. rewrite clean_multiline_text_eq.
  rewrite remove_open_plain, remove_close_plain.
  - rewrite strip_collapse. rewrite strip_strip. reflexivity.
  - apply not_in_collapse; [discriminate|].
    intros Hin. apply H2. exact (strip_in _ _ Hin).
  - apply not_in_collapse; [discriminate|].
    intros Hin. apply H1. exact (strip_in _ _ Hin).
Qed.

(** Markers around such a text are stripped, with the whitespace around and
    inside them. *)
Lemma clean_wrapped (a0 a t b b0 : str) :
  forallb is_space a0 = true -> forallb is_space a = true ->
  forallb is_space b = true -> forallb is_space b0 = true ->
  ~ In 60%N t -> ~ In 93%N t ->
  clean_multiline_text (a0 ++ (OPEN ++ (a ++ t ++ b) ++ CLOSE) ++ b0)
  = clean_multiline_text t.
Proof.
  intros Ha0 Ha Hb Hb0 H1 H2.
  rewrite (clean_plain t H1 H2), clean_multiline_text_eq.
  rewrite (strip_padded _ _ _ Ha0 Hb0).
  set (y := a ++ t ++ b).
  assert (Hy1 : ~ In 60%N y).
  { unfold y. intros Hin. apply in_app_or in Hin. destruct Hin as [Hin|Hin].
    - exact (not_in_ws 60%N a eq_refl Ha Hin).
    - apply in_app_or in Hin. destruct Hin as [Hin|Hin]; [tauto|].
      exact (not_in_ws 60%N b eq_refl Hb Hin). }
  assert (Hy2 : ~ In 93%N y).
  { unfold y. intros Hin. apply in_app_or in Hin. destruct Hin as [Hin|Hin].
    - exact (not_in_ws 93%N a eq_refl Ha Hin).
    - apply in_app_or in Hin. destruct Hin as [Hin|Hin]; [tauto|].
      exact (not_in_ws 93%N b eq_refl Hb Hin). }
  assert (Hstrip : strip (OPEN ++ y ++ CLOSE) = OPEN ++ y ++ CLOSE).
  { apply strip_id; [reflexivity|].
    unfold ends_nonspace. rewrite !rev_app_distr. reflexivity. }
  rewrite Hstrip.
  assert (Hcol : collapse_spaces (OPEN ++ y ++ CLOSE)
                 = OPEN ++ collapse_spaces y ++ CLOSE).
  { rewrite collapse_app by (left; reflexivity).
    rewrite collapse_app by (right; reflexivity). reflexivity. }
  rewrite Hcol, remove_open_match.
  rewrite drop_while_app by reflexivity.
  assert (Hc1 : ~ In 60%N (drop_while is_space (collapse_spaces y) ++ CLOSE)).
  { intros Hin. apply in_app_or in Hin. destruct Hin as [Hin|Hin].
    - apply drop_while_in in Hin. revert Hin.
      apply not_in_collapse; [discriminate | exact Hy1].
    - vm_compute in Hin. intuition discriminate. }
  assert (Hc2 : ~ In 93%N (drop_while is_space (collapse_spaces y))).
  { intros Hin. apply drop_while_in in Hin. revert Hin.
    apply not_in_collapse; [discriminate | exact Hy2]. }
  rewrite (remove_open_plain _ Hc1), (remove_close_at_end _ Hc2).
  change (rstrip (drop_while is_space (collapse_spaces y)))
    with (strip (collapse_spaces y)).
  rewrite strip_strip, strip_collapse. unfold y.
  rewrite (strip_padded _ _ _ Ha Hb). reflexivity.
Qed.

Lemma filter_all_ws (s : str) :
  forallb is_space s = true -> filter (fun c => negb (is_space c)) s = [].
Proof.
  induction s as [|c s IH]; simpl; [reflexivity|].
  destruct (is_space c); simpl; [exact IH | discriminate].
Qed.

(** Collapsing keeps the characters that are not whitespace, in order. *)
Lemma collapse_words (s : str) :
  filter (fun c => negb (is_space c)) (collapse_spaces s)
  = filter (fun c => negb (is_space c)) s.
Proof.
  apply (collapse_ind (fun s r =>
    filter (fun c => negb (is_space c)) r
    = filter (fun c => negb (is_space c)) s)).
  - reflexivity.
  - intros c t Hc IH. cbn [filter]. rewrite is_space_32, Hc. cbn [negb].
    rewrite IH. rewrite <- (take_drop_while is_space t) at 2.
    rewrite filter_app, (filter_all_ws _ (take_while_all _ _)).
    reflexivity.
  - intros c t Hc IH. cbn [filter]. rewrite Hc. cbn [negb].
    rewrite IH. reflexivity.
Qed.

(** *** The three substitutions, told by occurrences *)

Lemma collapse_nonws_prefix (p s : str) :
  (forall c : char, In c p -> is_space c = false) ->
  collapse_spaces (p ++ s) = p ++ collapse_spaces s.
Proof.
  induction p as [|c p IH]; intros H; [reflexivity|].
  change ((c :: p) ++ s) with (c :: p ++ s).
  rewrite collapse_cons_other by (apply H; left; reflexivity).
  rewrite IH by (intros x Hx; apply H; right; exact Hx). reflexivity.
Qed.

Lemma collapse_run (w rest : str) :
  w <> [] -> forallb is_space w = true -> head_space rest = false ->
  collapse_spaces (w ++ rest) = 32%N :: collapse_spaces rest.
Proof.
  intros Hne Hw Hr. destruct w as [|c w]; [contradiction|].
  simpl in Hw. apply andb_true_iff in Hw. destruct Hw as [Hc Hw].
  change ((c :: w) ++ rest) with (c :: w ++ rest).
  rewrite (collapse_cons_space _ _ Hc), (drop_while_app_all _ _ Hw),
    (drop_while_id _ Hr). reflexivity.
Qed.

Lemma space_collapsed_sound (s r : str) :
  space_collapsed s r -> r = collapse_spaces s.
Proof.
  induction 1 as [s H|p w rest r Hp Hne Hw Hr _ IH].
  - rewrite <- (app_nil_r s) at 2.
    rewrite (collapse_nonws_prefix _ _ H), app_nil_r. reflexivity.
  - rewrite (collapse_nonws_prefix _ _ Hp), (collapse_run _ _ Hne Hw Hr), IH.
    reflexivity.
Qed.

Lemma space_collapsed_cons_other (c : char) (s r : str) :
  is_space c = false -> space_collapsed s r ->
  space_collapsed (c :: s) (c :: r).
Proof.
  intros Hc H. destruct H as [s H|p w rest r Hp Hne Hw Hr Hrest].
  - apply space_collapsed_none. intros x [<-|Hx]; [exact Hc | exact (H x Hx)].
  - apply (space_collapsed_first (c :: p)); try assumption.
    intros x [<-|Hx]; [exact Hc | exact (Hp x Hx)].
Qed.

Lemma space_collapsed_complete (s : str) :
  space_collapsed s (collapse_spaces s).
Proof.
  apply (collapse_ind space_collapsed).
  - apply space_collapsed_none. intros c [].
  - intros c t Hc IH.
    rewrite <- (take_drop_while is_space t) at 1.
    apply (space_collapsed_first [] (c :: take_while is_space t)).
    + intros x [].
    + discriminate.
    + simpl. rewrite Hc. apply take_while_all.
    + apply head_space_drop_while.
    + exact IH.
  - intros c t Hc IH. exact (space_collapsed_cons_other _ _ _ Hc IH).
Qed.

Lemma startswith_false_no_head (m : str) (c : char) (s : str) :
  (forall a b : str, c :: s <> a ++ m ++ b) -> startswith m (c :: s) = false.
Proof.
  intros H. destruct (startswith m (c :: s)) eqn:E; [|reflexivity].
  apply startswith_iff in E. destruct E as [r Hr].
  exfalso. exact (H [] r Hr).
Qed.

Lemma no_occurrence_tail (m : str) (c : char) (s : str) :
  (forall a b : str, c :: s <> a ++ m ++ b) ->
  forall a b : str, s <> a ++ m ++ b.
Proof.
  intros H a b Hs. apply (H (c :: a) b). rewrite Hs. reflexivity.
Qed.

Lemma remove_open_none (s : str) :
  (forall a b : str, s <> a ++ OPEN ++ b) -> remove_open s = s.
Proof.
  induction s as [|c s IH]; intros H; [reflexivity|].
  rewrite (remove_open_other _ _ (startswith_false_no_head _ _ _ H)).
  rewrite (IH (no_occurrence_tail _ _ _ H)). reflexivity.
Qed.

Lemma remove_open_first (p rest : str) :
  (forall a b : str,
      p ++ OPEN ++ rest = a ++ OPEN ++ b -> length p <= length a) ->
  remove_open (p ++ OPEN ++ rest)
  = p ++ remove_open (drop_while is_space rest).
Proof.
  induction p as [|c p IH]; intros H.
  - rewrite !app_nil_l. apply remove_open_match.
  - change ((c :: p) ++ OPEN ++ rest) with (c :: p ++ OPEN ++ rest).
    rewrite remove_open_other.
    + rewrite IH; [reflexivity|]. intros a b Hab.
      assert (Hl : length (c :: p) <= length (c :: a)).
      { apply (H (c :: a) b). exact (f_equal (cons c) Hab). }
      simpl in Hl. lia.
    + destruct (startswith OPEN (c :: p ++ OPEN ++ rest)) eqn:E;
        [|reflexivity].
      apply startswith_iff in E. destruct E as [r Hr].
      assert (Hl : length (c :: p) <= length (@nil char))
        by (apply (H [] r); exact Hr).
      simpl in Hl. lia.
Qed.

Lemma open_stripped_sound (s r : str) :
  open_stripped s r -> r = remove_open s.
Proof.
  induction 1 as [s H|p rest r H _ IH].
  - symmetry. apply remove_open_none. exact H.
  - rewrite (remove_open_first _ _ H), IH. reflexivity.
Qed.

Lemma open_stripped_cons (c : char) (s r : str) :
  startswith OPEN (c :: s) = false -> open_stripped s r ->
  open_stripped (c :: s) (c :: r).
Proof.
  intros Hc H. destruct H as [s H|p rest r H Hrest].
  - apply open_stripped_none. intros a b Hab. destruct a as [|x a].
    + rewrite (proj2 (startswith_iff OPEN (c :: s)) (ex_intro _ b Hab)) in Hc.
      discriminate.
    + inversion Hab. exact (H a b H2).
  - apply (open_stripped_first (c :: p)); [|exact Hrest].
    intros a b Hab. destruct a as [|x a].
    + rewrite (proj2 (startswith_iff OPEN (c :: p ++ OPEN ++ rest))
                     (ex_intro _ b Hab)) in Hc.
      discriminate.
    + inversion Hab. simpl. apply le_n_S. apply (H a b). assumption.
Qed.

Lemma open_stripped_complete_aux (n : nat) :
  forall s : str, length s <= n -> open_stripped s (remove_open s).
Proof.
  induction n as [|n IH]; intros s Hn.
  - destruct s; [|simpl in Hn; lia].
    apply open_stripped_none. intros a b H. destruct a; discriminate.
  - destruct s as [|c s].
    + apply open_stripped_none. intros a b H. destruct a; discriminate.
    + destruct (startswith OPEN (c :: s)) eqn:E.
      * destruct (proj1 (startswith_iff _ _) E) as [r Hr].
        rewrite Hr, remove_open_match.
        apply (open_stripped_first [] r).
        -- intros a b _. apply Nat.le_0_l.
        -- apply IH. pose proof (drop_while_length is_space r) as Hl.
           apply (f_equal (@length char)) in Hr.
           rewrite length_app, length_OPEN in Hr. simpl in Hr, Hn. lia.
      * rewrite (remove_open_other _ _ E).
        apply (open_stripped_cons _ _ _ E). apply IH. simpl in Hn. lia.
Qed.

Lemma open_stripped_complete (s : str) : open_stripped s (remove_open s).
Proof. exact (open_stripped_complete_aux (length s) s (le_n _)). Qed.

Lemma is_space_93 : is_space 93%N = false.
Proof. reflexivity. Qed.

Lemma startswith_CLOSE_ws (c : char) (s : str) :
  startswith CLOSE (c :: s) = true -> is_space c = false.
Proof.
  intros H. apply startswith_iff in H. destruct H as [r Hr].
  change CLOSE with (93%N :: skipn 1 CLOSE) in Hr.
  inversion Hr. reflexivity.
Qed.

(** A closing marker found behind leading whitespace is an occurrence. *)
Lemma close_match_occurrence (s : str) :
  startswith CLOSE (drop_while is_space s) = true ->
  exists r : str, s = take_while is_space s ++ CLOSE ++ r.
Proof.
  intros H. apply startswith_iff in H. destruct H as [r Hr].
  exists r. rewrite <- Hr. symmetry. apply take_drop_while.
Qed.

Lemma remove_close_none (s : str) :
  (forall a b : str, s <> a ++ CLOSE ++ b) -> remove_close s = s.
Proof.
  induction s as [|c s IH]; intros H; [reflexivity|].
  rewrite remove_close_other.
  - rewrite (IH (no_occurrence_tail _ _ _ H)). reflexivity.
  - destruct (startswith CLOSE (drop_while is_space (c :: s))) eqn:E;
      [|reflexivity].
    destruct (close_match_occurrence _ E) as [r Hr].
    exfalso. exact (H _ _ Hr).
Qed.

Lemma forallb_firstn (f : char -> bool) (n : nat) (s : str) :
  forallb f s = true -> forallb f (firstn n s) = true.
Proof.
  revert n; induction s as [|c s IH]; intros [|n]; simpl; try reflexivity.
  rewrite !andb_true_iff. intros [H1 H2]. split; [exact H1 | exact (IH n H2)].
Qed.

Lemma remove_close_ws_run (w rest : str) :
  forallb is_space w = true ->
  remove_close (w ++ CLOSE ++ rest) = remove_close rest.
Proof.
  intros Hw.
  assert (Hd : drop_while is_space (w ++ CLOSE ++ rest) = CLOSE ++ rest).
  { rewrite (drop_while_app_all _ _ Hw). reflexivity. }
  destruct (w ++ CLOSE ++ rest) as [|c t] eqn:E.
  - destruct w; discriminate.
  - destruct (remove_close_match c t) as (r' & Hr' & ->).
    + rewrite Hd. apply startswith_app.
    + rewrite Hd in Hr'. apply app_inv_head in Hr'. subst r'. reflexivity.
Qed.

Lemma remove_close_first (p w rest : str) :
  ends_nonspace p -> forallb is_space w = true ->
  (forall a b : str,
      p ++ w ++ CLOSE ++ rest = a ++ CLOSE ++ b ->
      length (p ++ w) <= length a) ->
  remove_close (p ++ w ++ CLOSE ++ rest) = p ++ remove_close rest.
Proof.
  intros He Hw. induction p as [|c p IH]; intros H.
  - rewrite !app_nil_l. apply remove_close_ws_run. exact Hw.
  - change ((c :: p) ++ w ++ CLOSE ++ rest) with (c :: p ++ w ++ CLOSE ++ rest).
    rewrite remove_close_other.
    + rewrite IH; [reflexivity | exact (ends_nonspace_tail _ _ He) |].
      intros a b Hab.
      assert (Hl : length ((c :: p) ++ w) <= length (c :: a)).
      { apply (H (c :: a) b). exact (f_equal (cons c) Hab). }
      simpl in Hl. simpl. lia.
    + destruct (startswith CLOSE
                  (drop_while is_space (c :: p ++ w ++ CLOSE ++ rest))) eqn:E;
        [|reflexivity].
      exfalso. destruct (close_match_occurrence _ E) as [r Hr].
      set (tk := take_while is_space (c :: p ++ w ++ CLOSE ++ rest)) in *.
      assert (Hl : length ((c :: p) ++ w) <= length tk)
        by (apply (H tk r); exact Hr).
      assert (Hall : forallb is_space (c :: p) = false)
        by (apply ends_nonspace_not_all; [discriminate | exact He]).
      assert (Hp : c :: p = firstn (length (c :: p)) tk).
      { transitivity (firstn (length (c :: p))
                             ((c :: p) ++ w ++ CLOSE ++ rest)).
        - symmetry. apply firstn_app_exact.
        - change ((c :: p) ++ w ++ CLOSE ++ rest)
            with (c :: p ++ w ++ CLOSE ++ rest).
          rewrite Hr at 1. rewrite firstn_app.
          replace (length (c :: p) - length tk) with 0
            by (rewrite length_app in Hl; lia).
          rewrite firstn_O, app_nil_r. reflexivity. }
      rewrite Hp, forallb_firstn in Hall; [discriminate|].
      apply take_while_all.
Qed.

Lemma close_stripped_sound (s r : str) :
  close_stripped s r -> r = remove_close s.
Proof.
  induction 1 as [s H|p w rest r He Hw H _ IH].
  - symmetry. apply remove_close_none. exact H.
  - rewrite (remove_close_first _ _ _ He Hw H), IH. reflexivity.
Qed.

Lemma close_head_no_match (c : char) (s b : str) :
  startswith CLOSE (drop_while is_space (c :: s)) = false ->
  c :: s <> CLOSE ++ b.
Proof.
  intros Hc Hab.
  assert (Hs : startswith CLOSE (c :: s) = true)
    by (apply startswith_iff; exists b; exact Hab).
  pose proof (startswith_CLOSE_ws _ _ Hs) as Hws.
  cbn [drop_while] in Hc. rewrite Hws in Hc. rewrite Hs in Hc. discriminate.
Qed.

Lemma close_stripped_cons (c : char) (s r : str) :
  startswith CLOSE (drop_while is_space (c :: s)) = false ->
  close_stripped s r -> close_stripped (c :: s) (c :: r).
Proof.
  intros Hc H. destruct H as [s H|p w rest r He Hw H Hrest].
  - apply close_stripped_none. intros a b Hab. destruct a as [|x a].
    + exact (close_head_no_match _ _ _ Hc Hab).
    + inversion Hab. exact (H a b H2).
  - apply (close_stripped_first (c :: p)); [|exact Hw| |exact Hrest].
    + destruct p as [|y p].
      * (* the character in front of the whitespace is not whitespace *)
        unfold ends_nonspace. simpl.
        destruct (is_space c) eqn:Ec; [|reflexivity]. exfalso.
        assert (Hd : drop_while is_space (c :: [] ++ w ++ CLOSE ++ rest)
                     = CLOSE ++ rest).
        { simpl. rewrite Ec, (drop_while_app_all _ _ Hw). reflexivity. }
        rewrite Hd, startswith_app in Hc. discriminate.
      * unfold ends_nonspace in *. simpl in *.
        destruct (rev p ++ [y]) as [|z l] eqn:E;
          [destruct (rev p); discriminate|].
        simpl in *. exact He.
    + intros a b Hab. destruct a as [|x a].
      * exfalso. exact (close_head_no_match _ _ _ Hc Hab).
      * inversion Hab. simpl. apply le_n_S. apply (H a b). assumption.
Qed.

Lemma close_stripped_complete_aux (n : nat) :
  forall s : str, length s <= n -> close_stripped s (remove_close s).
Proof.
  induction n as [|n IH]; intros s Hn.
  - destruct s; [|simpl in Hn; lia].
    apply close_stripped_none. intros a b H. destruct a; discriminate.
  - destruct s as [|c s].
    + apply close_stripped_none. intros a b H. destruct a; discriminate.
    + destruct (startswith CLOSE (drop_while is_space (c :: s))) eqn:E.
      * destruct (close_match_occurrence _ E) as [r Hr].
        set (tk := take_while is_space (c :: s)) in *.
        assert (Hw : forallb is_space tk = true) by apply take_while_all.
        rewrite Hr, (remove_close_ws_run _ _ Hw).
        apply (close_stripped_first [] tk r); [reflexivity | exact Hw | |].
        -- intros a b Hab. rewrite app_nil_l in *.
           apply app_eq_app in Hab.
           destruct Hab as [l [[Ht Hc]|[Ha Hc]]].
           ++ destruct l as [|x l];
                [rewrite app_nil_r in Ht; rewrite Ht; apply le_n|].
              exfalso.
              assert (Hx : is_space x = true).
              { rewrite forallb_forall in Hw. apply Hw. rewrite Ht.
                apply in_or_app. right. left. reflexivity. }
              change CLOSE with (93%N :: skipn 1 CLOSE) in Hc.
              inversion Hc. subst x. discriminate.
           ++ rewrite Ha, length_app. lia.
        -- apply IH. apply (f_equal (@length char)) in Hr.
           rewrite !length_app in Hr. change (length CLOSE) with 3 in Hr.
           lia.
      * rewrite (remove_close_other _ _ E).
        apply (close_stripped_cons _ _ _ E). apply IH. simpl in Hn. lia.
Qed.

Lemma close_stripped_complete (s : str) : close_stripped s (remove_close s).
Proof. exact (close_stripped_complete_aux (length s) s (le_n _)). Qed.

(** The normaliser, stage by stage. *)
Lemma clean_characterised (t r : str) :
  clean_multiline_text t = r <->
  exists s1 s2 s3 : str,
    space_collapsed (strip t) s1 /\ open_stripped s1 s2 /\
    close_stripped s2 s3 /\ r = strip s3.
Proof.
  rewrite clean_multiline_text_eq. split.
  - intros <-.
    exists (collapse_spaces (strip t)),
           (remove_open (collapse_spaces (strip t))),
           (remove_close (remove_open (collapse_spaces (strip t)))).
    split; [apply space_collapsed_complete|].
    split; [apply open_stripped_complete|].
    split; [apply close_stripped_complete | reflexivity].
  - intros (s1 & s2 & s3 & H1 & H2 & H3 & ->).
    apply space_collapsed_sound in H1. apply open_stripped_sound in H2.
    apply close_stripped_sound in H3. subst. reflexivity.
Qed.

(** C9.  For every text the normaliser gives a result that neither starts
    nor ends with whitespace and in which every whitespace character is a
    single space between two other characters.  A text without [<] and
    without [[]]] is trimmed and collapsed and otherwise unchanged: its
    other characters are kept in order.  Markers around such a text are
    stripped together with the whitespace around and inside them.  The two
    examples of the specification come out as stated.  For every text the
    result is exactly this: the text is trimmed; every run of whitespace
    becomes one space; then every opening marker, from the left, goes with
    the whitespace behind it; then every closing marker, from the left, goes
    with the whitespace in front of it; and the rest is trimmed.  So markers
    inside a text and a closing marker alone are stripped too. *)
Theorem clean_multiline_text_normalizes :
  (forall t : str,
      let r := clean_multiline_text t in
      (forall (c : char) (b : str), r = c :: b -> is_space c = false) /\
      (forall (b : str) (c : char), r = b ++ [c] -> is_space c = false) /\
      (forall (a : str) (c : char) (b : str),
          r = a ++ c :: b -> is_space c = true -> c = 32%N) /\
      (forall (a : str) (x y : char) (b : str),
          r = a ++ x :: y :: b -> is_space x = true -> is_space y = false)) /\
  (forall t : str,
      ~ In 60%N t -> ~ In 93%N t ->
      clean_multiline_text t = collapse_spaces (strip t) /\
      filter (fun c => negb (is_space c)) (clean_multiline_text t)
      = filter (fun c => negb (is_space c)) t) /\
  (forall a0 a t b b0 : str,
      forallb is_space a0 = true -> forallb is_space a = true ->
      forallb is_space b = true -> forallb is_space b0 = true ->
      ~ In 60%N t -> ~ In 93%N t ->
      clean_multiline_text
        (a0 ++ (u "<![CDATA[" ++ (a ++ t ++ b) ++ u "]]>") ++ b0)
      = clean_multiline_text t) /\
  clean_multiline_text (u "  a" ++ [NL; Examples.TAB] ++ u "b  ") = u "a b" /\
  clean_multiline_text (u "<![CDATA[ x ]]>") = u "x" /\
  (forall t r : str,
      clean_multiline_text t = r <->
      exists s1 s2 s3 : str,
        space_collapsed (strip t) s1 /\ open_stripped s1 s2 /\
        close_stripped s2 s3 /\ r = strip s3) /\
  clean_multiline_text (u "a <![CDATA[ b ]]> c") = u "a b c" /\
  clean_multiline_text (u "x ]]>") = u "x".
Proof.
  split; [|split; [|split;
    [|split; [reflexivity|split; [reflexivity|split;
       [exact clean_characterised | split; reflexivity]]]]]].
  - intros t r.
    assert (Hc : collapsed r = true).
    { unfold r. rewrite clean_multiline_text_eq.
      apply collapsed_strip, remove_close_collapsed, remove_open_collapsed,
        collapse_spaces_collapsed. }
    assert (Hr : r = strip (remove_close (remove_open
                                (collapse_spaces (strip t)))))
      by apply clean_multiline_text_eq.
    destruct (strip_ends (remove_close (remove_open
                            (collapse_spaces (strip t))))) as [H1 H2].
    rewrite <- Hr in H1, H2.
    destruct (collapsed_spec r Hc) as [H3 H4].
    split; [|split; [|split; [exact H3 | exact H4]]].
    + intros c b E. rewrite E in H1. exact H1.
    + intros b c E. rewrite E in H2. unfold ends_nonspace in H2.
      rewrite rev_app_distr in H2. exact H2.
  - intros t H1 H2. rewrite (clean_plain t H1 H2).
    split; [reflexivity|]. rewrite collapse_words.
    destruct (strip_spec t) as (l & r & Hs & Hl & Hr & _).
    rewrite Hs at 2.
    rewrite !filter_app, (filter_all_ws _ Hl), (filter_all_ws _ Hr).
    rewrite app_nil_r. reflexivity.
  - exact clean_wrapped.
Qed.

(* ================================================================== *)
(** ** The properties on concrete documents *)

Import Examples.

(** Closed goals are settled by evaluation. *)
Ltac by_eval := vm_compute; reflexivity.

Lemma lower_tr_shape : lower_shape lower_tr.
Proof.
  intros s. exists (map lower_char s).
  split; [reflexivity|]. split; [apply length_map|].
  apply Forall_forall. intros p Hp. apply in_map_iff in Hp.
  destruct Hp as (c & <- & _). unfold lower_char.
  destruct ((65 <=? c)%N && (c <=? 90)%N); [left; reflexivity|].
  destruct (c =? 304)%N; [right | left]; reflexivity.
Qed.

(** Base names of length 0 to 2, of length 3 and longer ones. *)
Example module_code_examples :
  map (fun p => module_code_of lower_tr (basename p))
      [u "dir/"; u "a"; u "dir/ab"; u "B47"; u "dir/B47SA508.glue_sql";
       u "a.b/Q1x.xml"]
  = [u "unknown"; u "unknown"; u "unknown"; u "b47"; u "b47"; u "q1x"].
Proof. by_eval. Qed.

(** In the nested wrapper the group ends at the first closing marker, and it
    runs across line breaks. *)
Example search_cdata_examples :
  search_cdata (u "x<![CDATA[ a" ++ [NL] ++ u " b ]]> c ]]>")
  = Some (u " a" ++ [NL] ++ u " b ") /\
  search_cdata (u "<![CDATA[ never closed") = None.
Proof. split; by_eval. Qed.

(** A single pass: markers that only appear once other text is removed
    stay. *)
Example clean_single_pass :
  clean_multiline_text (u "]]]]>>") = u "]]>".
Proof. by_eval. Qed.

Lemma parse_never_raises_witness :
  exists (d : dict) (o' : Out),
    parse w3 file_b Out0 = (Ok d, o') /\
    lookup (u "error") d
    = Some (VStr (u "XML 파싱 오류: syntax error: line 1, column 0")).
Proof.
  destruct (parse_never_raises lower_tr repr_plain w3 file_b Out0)
    as [(d & o' & Hp & Hd) _].
  exists d, o'. split; [exact Hp|].
  assert (E : ET_parse w3 file_b = bad_xml) by by_eval.
  rewrite E in Hd. destruct Hd as [-> _]. by_eval.
Defined.

Lemma module_code_from_file_name_witness :
  ET_parse w3 file_a = Ok root_a /\
  exists inner : dict,
    parse w3 file_a Out0 = (Ok [(u "b47", VDict inner)], Out0).
Proof.
  assert (E : ET_parse w3 file_a = Ok root_a) by by_eval.
  split; [exact E|].
  destruct (module_code_from_file_name lower_tr repr_plain w3 file_a root_a
                                       Out0 E)
    as (dir & file_name & inner & _ & _ & _ & Hn & Hp).
  exists inner. subst file_name.
  assert (K : (if length (basename file_a) <? 3 then u "unknown"
               else lower_tr (firstn 3 (basename file_a))) = u "b47")
    by by_eval.
  rewrite K in Hp. exact Hp.
Defined.

Lemma query_entries_witness :
  ET_parse w3 file_a = Ok root_a /\
  exists inner : dict,
    parse w3 file_a Out0
    = (Ok [(module_code_of lower_tr (basename file_a), VDict inner)], Out0) /\
    length inner = 2 /\
    keys inner = [u "B47SA508_1.select"; u "B47SA508_2.select"].
Proof.
  assert (E : ET_parse w3 file_a = Ok root_a) by by_eval.
  split; [exact E|].
  destruct (query_entries lower_tr repr_plain w3 file_a root_a Out0 E)
    as (inner & Hp & Hnd & _ & _).
  assert (ND : NoDup (map qid (findall root_a (u "query")))).
  { vm_compute.
    apply NoDup_cons; [|apply NoDup_cons; [intros [] | apply NoDup_nil]].
    intros [H|[]]. discriminate. }
  destruct (Hnd ND) as [Hi Hl].
  exists inner. split; [exact Hp|]. split; [rewrite Hl; by_eval|].
  rewrite Hi. by_eval.
Defined.

Lemma top_level_key_unambiguous_witness :
  lower_shape lower_tr /\
  exists (k : str) (v : value) (o' : Out),
    parse w3 file_a Out0 = (Ok [(k, v)], o') /\ k <> u "error".
Proof.
  split; [exact lower_tr_shape|].
  destruct (top_level_key_unambiguous lower_tr repr_plain lower_tr_shape
                                      w3 file_a Out0)
    as (k & v & o' & Hp & Hk & _).
  exists k, v, o'. split; [exact Hp|].
  assert (E : ET_parse w3 file_a = Ok root_a) by by_eval.
  rewrite E in Hk. destruct Hk as (_ & Hk & _). exact Hk.
Defined.

(** C10, as stated, fails: a file name that starts with U+0130 gives a
    module code of four characters, which is not "unknown" either. *)
Lemma module_code_of_four_characters :
  exists (k : str) (v : value),
    parse w_tr file_tr Out0 = (Ok [(k, v)], Out0) /\
    length k = 4 /\ ~ (length k = 3 \/ k = u "unknown").
Proof.
  exists [105%N; 775%N; 97%N; 98%N], (VDict []).
  split; [by_eval|]. split; [reflexivity|].
  intros [H|H]; vm_compute in H; discriminate.
Qed.

Lemma query_body_choice_witness :
  (* the scan stops at the second child and takes the inside of the first
     wrapper of its text *)
  find cdata_child (children q_wrapped) = Some child_sql /\
  scan_children (children q_wrapped) = u " SELECT 3 " /\
  query_body q_wrapped = u " SELECT 3 " /\
  (exists pre rest : list Element,
      children q_wrapped = pre ++ child_sql :: rest /\
      cdata_child child_sql = true /\
      forallb (fun c => negb (cdata_child c)) pre = true) /\
  (exists pre post : str,
      u "x<![CDATA[ SELECT 3 ]]> tail ]]>"
      = pre ++ OPEN ++ u " SELECT 3 " ++ CLOSE ++ post /\
      (forall a b : str,
          u "x<![CDATA[ SELECT 3 ]]> tail ]]>" = a ++ OPEN ++ b ->
          length pre <= length a) /\
      (forall a b : str,
          u " SELECT 3 " ++ CLOSE ++ post = a ++ CLOSE ++ b ->
          length (u " SELECT 3 ") <= length a)) /\
  (* a text without wrapper is taken as it is *)
  query_body q_verbatim = u " CDATA as a word " /\
  (* the child found gives nothing: the direct text is the body *)
  cdata_child (mkElement (u "CDATA") [] None []) = true /\
  query_body q_marker_child = u "SELECT 2" /\
  (* no child and no text *)
  query_body q_bare = [].
Proof.
  assert (F : find cdata_child (children q_wrapped) = Some child_sql)
    by by_eval.
  destruct (query_body_choice q_wrapped) as (Hscan & Hbody & Hfirst & _ & _ & Hsearch).
  split; [exact F|].
  split; [rewrite Hscan; by_eval|].
  split; [rewrite Hbody; by_eval|].
  split; [exact (Hfirst child_sql F)|].
  split.
  { specialize (Hsearch (u "x<![CDATA[ SELECT 3 ]]> tail ]]>")).
    assert (S3 : search_cdata (u "x<![CDATA[ SELECT 3 ]]> tail ]]>")
                 = Some (u " SELECT 3 ")) by by_eval.
    rewrite S3 in Hsearch. exact Hsearch. }
  split.
  { destruct (query_body_choice q_verbatim) as (_ & Hb & _).
    rewrite Hb. by_eval. }
  destruct (query_body_choice q_marker_child)
    as (_ & Hb & _ & _ & Hchild & _).
  split.
  { apply Hchild. left. exists [], []. by_eval. }
  split; [rewrite Hb; by_eval|].
  assert (E : find cdata_child (children q_bare) = None) by by_eval.
  destruct (query_body_choice q_bare) as (_ & _ & _ & H & _).
  rewrite (H E). by_eval.
Defined.

(** C2, as stated, fails: the first child meets the condition of the scan,
    and the body is the direct text of the element all the same. *)
Lemma direct_text_despite_cdata_child :
  find cdata_child (children q_marker_child)
  = Some (mkElement (u "CDATA") [] None []) /\
  text q_marker_child = Some (u "SELECT 2") /\
  query_body q_marker_child = u "SELECT 2".
Proof. repeat split; by_eval. Qed.

Lemma descriptions_raw_body_trimmed_witness :
  ET_parse w_untidy file_untidy = Ok root_untidy /\
  exists (result : dict) (rec : value),
    parse w_untidy file_untidy Out0 = (Ok result, Out0) /\
    entry result (module_code_of lower_tr (basename file_untidy)) (u "q1")
    = Some rec /\
    field (u "desc") rec = Some (VStr (u "  total   count ")) /\
    field (u "query_map_desc") rec = Some (VStr (u " order   maps ")).
Proof.
  assert (E : ET_parse w_untidy file_untidy = Ok root_untidy) by by_eval.
  split; [exact E|].
  assert (F : find (fun q' => str_eqb (qid q') (u "q1"))
                   (rev (findall root_untidy (u "query")))
              = Some (q_text "q1" "  total   count " "SELECT 1"))
    by by_eval.
  destruct (descriptions_raw_body_trimmed
              lower_tr repr_plain w_untidy file_untidy root_untidy Out0
              (u "q1") (q_text "q1" "  total   count " "SELECT 1") E F)
    as (result & rec & Hp & He & Hd & Hm & _).
  exists result, rec. split; [exact Hp|]. split; [exact He|].
  split; [rewrite Hd; by_eval | rewrite Hm; by_eval].
Defined.

(** C3, as stated, fails: the stored descriptions are not what the
    normaliser makes of the attribute values. *)
Lemma descriptions_not_normalized :
  exists (result : dict) (rec : value),
    parse w_untidy file_untidy Out0 = (Ok result, Out0) /\
    entry result (u "b47") (u "q1") = Some rec /\
    clean_multiline_text (get (q_text "q1" "  total   count " "SELECT 1")
                              (u "desc") []) = u "total count" /\
    field (u "desc") rec = Some (VStr (u "  total   count ")) /\
    field (u "desc") rec
    <> Some (VStr (clean_multiline_text
                     (get (q_text "q1" "  total   count " "SELECT 1")
                          (u "desc") []))) /\
    field (u "query_map_desc") rec
    <> Some (VStr (clean_multiline_text (get root_untidy (u "desc") []))).
Proof.
  exists [(u "b47",
           VDict [(u "q1",
                   query_info file_untidy (u " order   maps ")
                     (q_text "q1" "  total   count " "SELECT 1"))])],
         (query_info file_untidy (u " order   maps ")
                     (q_text "q1" "  total   count " "SELECT 1")).
  split; [by_eval|]. split; [by_eval|].
  split; [by_eval|]. split; [by_eval|].
  split; intros H; vm_compute in H; discriminate.
Qed.

Lemma query_field_wrapped_witness :
  field (u "query") (query_info [] [] q_bare)
  = Some (VStr (u "<![CDATA[" ++ [NL; NL] ++ u "         ]]>")) /\
  exists (result : dict) (rec : value),
    parse w3 file_a Out0 = (Ok result, Out0) /\
    entry result (module_code_of lower_tr (basename file_a))
          (u "B47SA508_1.select") = Some rec /\
    field (u "query") rec
    = Some (VStr (u "<![CDATA[" ++ [NL] ++ u "SELECT 1" ++ [NL]
                    ++ u "         ]]>")).
Proof.
  destruct (query_field_wrapped lower_tr repr_plain)
    as (_ & _ & Hbare & Hparse).
  split.
  - assert (Hc : forallb (fun c => negb (cdata_child c)) (children q_bare)
                 = true) by by_eval.
    assert (Ht : truthy_opt (text q_bare) = false) by by_eval.
    rewrite (proj2 (Hbare [] [] q_bare Hc Ht)). by_eval.
  - assert (E : ET_parse w3 file_a = Ok root_a) by by_eval.
    assert (F : find (fun q' => str_eqb (qid q') (u "B47SA508_1.select"))
                     (rev (findall root_a (u "query")))
                = Some (q_text "B47SA508_1.select" "first" " SELECT 1 "))
      by by_eval.
    destruct (Hparse w3 file_a root_a Out0 (u "B47SA508_1.select")
                     (q_text "B47SA508_1.select" "first" " SELECT 1 ") E F)
      as (result & rec & Hp & He & Hq).
    exists result, rec. split; [exact Hp|]. split; [exact He|].
    rewrite Hq. by_eval.
Defined.




Lemma clean_multiline_text_normalizes_witness :
  clean_multiline_text (u " " ++ (u "<![CDATA[" ++ (u "  " ++ u "select 1"
                                   ++ u "  ") ++ u "]]>") ++ u " ")
  = clean_multiline_text (u "select 1") /\
  exists s1 s2 s3 : str,
    space_collapsed (strip (u "a   <![CDATA[ b ]]> c ")) s1 /\
    open_stripped s1 s2 /\ close_stripped s2 s3 /\
    u "a b c" = strip s3.
Proof.
  destruct clean_multiline_text_normalizes
    as (_ & _ & H & _ & _ & Hchar & _).
  split.
  - apply H; try by_eval; vm_compute; intuition discriminate.
  - apply (proj1 (Hchar (u "a   <![CDATA[ b ]]> c ") (u "a b c"))).
    by_eval.
Defined.

(** When the device is full, or a string cannot be encoded, the output file
    is opened and left incomplete, the conversion returns [False] and the
    run ends with status 1. *)
Example convert_full_device :
  convert w3 file_c (Some (u "/dev/full")) Out0
  = (Ok false,
     mkOut [u "변환 오류: [Errno 28] No space left on device"]
           [(u "/dev/full", Truncated)]) /\
  fst (run w3 [prog; file_c; u "/dev/full"] Out0) = Ok 1.
Proof. split; by_eval. Qed.

Example convert_surrogate_name :
  ET_parse w_sur file_sur = Ok (root_of "m" [q_text "q1" "d" "SELECT 1"]) /\
  open_w w_sur (output_path file_sur None) = Ok tt /\
  converts lower_tr repr_plain w_sur file_sur = false /\
  fst (convert w_sur file_sur None Out0) = Ok false /\
  written (snd (convert w_sur file_sur None Out0))
  = [(output_path file_sur None, Truncated)] /\
  fst (run w_sur [prog; u "d"] Out0) = Ok 1 /\
  last (stdout (snd (run w_sur [prog; u "d"] Out0))) []
  = u "성공: 0개, 실패: 1개".
Proof. repeat split; by_eval. Qed.

(* ================================================================== *)
(** ** Further properties: the converter and the driver *)



Lemma lookup_dict_set_other {V : Type} (k p : str) (v : V)
      (d : list (str * V)) :
  p <> k -> lookup p (dict_set k v d) = lookup p d.
Proof.
  intros H. rewrite lookup_dict_set.
  destruct (str_eqb k p) eqn:E; [|reflexivity].
  apply str_eqb_eq in E. congruence.
Qed.

Lemma lookup_dict_set_same {V : Type} (k : str) (v : V) (d : list (str * V)) :
  lookup k (dict_set k v d) = Some v.
Proof. rewrite lookup_dict_set, str_eqb_refl. reflexivity. Qed.

Lemma lookup_dict_set_keeps {V : Type} (k p : str) (v : V)
      (d : list (str * V)) :
  lookup p d <> None -> lookup p (dict_set k v d) <> None.
Proof.
  intros H. rewrite lookup_dict_set.
  destruct (str_eqb k p); [discriminate | exact H].
Qed.



Section DriverExtras.

Variable str_lower : str -> str.
Variable str_repr : str -> str.

(** What the loop of the directory mode does. *)
Lemma for_files_outcome (w : World) (files : list str) :
  forall (s f : nat) (o : Out),
    exists o' : Out,
      for_files str_lower str_repr w files s f o =
      (Ok (s + length (filter (converts str_lower str_repr w) files),
           f + length (filter (fun x => negb (converts str_lower str_repr
                                                        w x)) files)), o') /\
      (exists lines : list str, stdout o' = stdout o ++ lines) /\
      (forall p : str,
          (forall x : str, In x files -> p <> output_path x None) ->
          lookup p (written o') = lookup p (written o)) /\
      (forall p : str,
          lookup p (written o) <> None -> lookup p (written o') <> None) /\
      (forall x : str, In x files -> converts str_lower str_repr w x = true ->
                       lookup (output_path x None) (written o') <> None).
Proof.
  induction files as [|file files IH]; intros s f o.
  - exists o. simpl. rewrite !Nat.add_0_r.
    split; [reflexivity|].
    split; [exists []; symmetry; apply app_nil_r|].
    split; [reflexivity|]. split; [tauto | intros x []].
  - cbn [for_files]. unfold bind, print.
    match goal with
    | |- context [convert_xml_to_json _ _ w file None ?st] =>
      destruct (convert_outcome str_lower str_repr w file None st)
        as (o1 & Hc & (l1 & Hl1 & _) & Hfail & Hok)
    end.
    cbn [written stdout] in Hfail, Hok, Hl1.
    change (convert_ok str_lower str_repr w file None)
      with (converts str_lower str_repr w file) in *.
    rewrite Hc. cbn [filter].
    assert (Hstep_other : forall p : str,
               p <> output_path file None ->
               lookup p (written o1) = lookup p (written o)).
    { intros p Hp.
      destruct (converts str_lower str_repr w file).
      - rewrite (Hok eq_refl). apply lookup_dict_set_other. exact Hp.
      - destruct (Hfail eq_refl) as [->|[_ ->]]; [reflexivity|].
        apply lookup_dict_set_other. exact Hp. }
    assert (Hstep_keep : forall p : str,
               lookup p (written o) <> None ->
               lookup p (written o1) <> None).
    { intros p Hp.
      destruct (converts str_lower str_repr w file).
      - rewrite (Hok eq_refl). apply lookup_dict_set_keeps. exact Hp.
      - destruct (Hfail eq_refl) as [->|[_ ->]]; [exact Hp|].
        apply lookup_dict_set_keeps. exact Hp. }
    destruct (converts str_lower str_repr w file) eqn:Ecv;
      cbn [negb length].
    + destruct (IH (s + 1) f o1)
        as (o' & Ho' & (l2 & Hl2) & Hother & Hkeep & Hdone).
      exists o'. split; [rewrite Ho'; do 3 f_equal; lia|].
      split; [|split; [|split]].
      * eexists. rewrite Hl2, Hl1, <- !app_assoc. reflexivity.
      * intros p Hp. rewrite Hother.
        -- apply Hstep_other. apply Hp. left. reflexivity.
        -- intros x Hx. apply Hp. right. exact Hx.
      * intros p Hp. apply Hkeep, Hstep_keep. exact Hp.
      * intros x [->|Hx] Hcx.
        -- apply Hkeep. rewrite (Hok eq_refl), lookup_dict_set_same.
           discriminate.
        -- exact (Hdone x Hx Hcx).
    + destruct (IH s (f + 1) o1)
        as (o' & Ho' & (l2 & Hl2) & Hother & Hkeep & Hdone).
      exists o'. split; [rewrite Ho'; do 3 f_equal; lia|].
      split; [|split; [|split]].
      * eexists. rewrite Hl2, Hl1, <- !app_assoc. reflexivity.
      * intros p Hp. rewrite Hother.
        -- apply Hstep_other. apply Hp. left. reflexivity.
        -- intros x Hx. apply Hp. right. exact Hx.
      * intros p Hp. apply Hkeep, Hstep_keep. exact Hp.
      * intros x [->|Hx] Hcx; [congruence|].
        exact (Hdone x Hx Hcx).
Qed.

(** The directory mode, once files were found. *)
Lemma main_directory (w : World) (prog dir : str) (rest : list str)
      (o : Out) :
  os_path_isdir w dir = true -> directory_files w dir <> [] ->
  exists (o' : Out) (lines : list str),
    main str_lower str_repr w (prog :: dir :: rest) o
    = (Ok (if 0 <? length (filter (fun x => negb (converts str_lower
                                                   str_repr w x))
                                  (directory_files w dir))
           then 1 else 0), o') /\
    stdout o' =
    stdout o ++ lines
           ++ [summary_line
                 (length (filter (converts str_lower str_repr w)
                                 (directory_files w dir)))
                 (length (filter (fun x => negb (converts str_lower str_repr
                                                          w x))
                                 (directory_files w dir)))] /\
    (forall p : str,
        (forall x : str, In x (directory_files w dir) ->
                         p <> output_path x None) ->
        lookup p (written o') = lookup p (written o)) /\
    (forall x : str, In x (directory_files w dir) ->
                     converts str_lower str_repr w x = true ->
                     lookup (output_path x None) (written o') <> None).
Proof.
  intros Hd Hne. unfold main.
  cbn [length Nat.ltb Nat.leb nth]. rewrite Hd.
  change (glob_glob w (join dir (u "*.glue_sql"))
            ++ glob_glob w (join dir (u "*.xml")))
    with (directory_files w dir).
  destruct (directory_files w dir) as [|file0 files0] eqn:Ef;
    [contradiction|].
  rewrite <- Ef in *. unfold bind, print.
  match goal with
  | |- context [for_files _ _ w (directory_files w dir) 0 0 ?st] =>
    destruct (for_files_outcome w (directory_files w dir) 0 0 st)
      as (o1 & Hc & (l1 & Hl1) & Hother & _ & Hdone)
  end.
  rewrite Hc. cbn [fst snd Nat.add stdout written] in *.
  destruct (length (filter (fun x => negb (converts str_lower str_repr w x))
                           (directory_files w dir))) as [|n];
    (eexists;
     exists ([u "발견된 파일 " ++ str_of_nat (length (directory_files w dir))
                ++ u "개를 처리합니다..."]
               ++ l1 ++ [[NL] ++ u "=== 처리 완료 ==="]);
     split; [reflexivity|];
     cbn [stdout written]; split; [|split; [exact Hother | exact Hdone]];
     rewrite Hl1; unfold summary_line; rewrite <- !app_assoc; reflexivity).
Qed.

End DriverExtras.

Section DriverProperties.

Variable str_lower : str -> str.
Variable str_repr : str -> str.


(** X2.  Without an input path, with an input path that is neither a
    directory nor a regular file, and with a directory in which no file
    matches, [main] prints a diagnostic, writes no file and ends with
    status 1. *)
Theorem main_failure_modes_write_nothing
        (w : World) (argv : list str) (o : Out)
        (H : length argv < 2 \/
             exists (prog input_path : str) (rest : list str),
               argv = prog :: input_path :: rest /\
               ((os_path_isdir w input_path = false /\
                 os_path_isfile w input_path = false) \/
                (os_path_isdir w input_path = true /\
                 directory_files w input_path = []))) :
  exists (o' : Out) (lines : list str),
    main str_lower str_repr w argv o = (Ok 1, o') /\
    written o' = written o /\
    stdout o' = stdout o ++ lines /\ lines <> [].
Proof.
  destruct H as [H|(prog & input_path & rest & -> & H)].
  - destruct argv as [|prog [|input_path rest]]; [| |simpl in H; lia];
      (eexists _, [_; _; _]; split; [reflexivity|];
       cbn [stdout written]; split; [reflexivity|];
       split; [rewrite <- !app_assoc; reflexivity | discriminate]).
  - destruct H as [[Hd Hf]|[Hd Ef]].
    + eexists _, [_]. split.
      { unfold main. cbn [length Nat.ltb Nat.leb nth]. rewrite Hd, Hf.
        reflexivity. }
      cbn [stdout written]. split; [reflexivity|].
      split; [reflexivity | discriminate].
    + eexists _, [_]. split.
      { unfold main. cbn [length Nat.ltb Nat.leb nth]. rewrite Hd.
        change (glob_glob w (join input_path (u "*.glue_sql"))
                  ++ glob_glob w (join input_path (u "*.xml")))
          with (directory_files w input_path).
        rewrite Ef. reflexivity. }
      cbn [stdout written]. split; [reflexivity|].
      split; [reflexivity | discriminate].
Qed.

(** X3.  In the directory mode the arguments behind the directory are
    ignored, and the only paths written are derived output paths of files
    found in the directory. *)
Theorem main_directory_mode_outputs
        (w : World) (prog dir : str) (rest : list str) (o : Out)
        (Hd : os_path_isdir w dir = true) :
  main str_lower str_repr w (prog :: dir :: rest) o
  = main str_lower str_repr w [prog; dir] o /\
  forall (status : nat) (o' : Out) (p : str),
    main str_lower str_repr w (prog :: dir :: rest) o = (Ok status, o') ->
    lookup p (written o') <> lookup p (written o) ->
    exists x : str,
      In x (directory_files w dir) /\ p = output_path x None.
Proof.
  split.
  - unfold main. cbn [length Nat.ltb Nat.leb nth]. rewrite Hd. reflexivity.
  - intros status o' p Hm Hp.
    destruct (directory_files w dir) as [|f0 fs] eqn:Ef.
    + exfalso. apply Hp.
      assert (Hm' : main str_lower str_repr w (prog :: dir :: rest) o
                    = (Ok 1,
                       mkOut (stdout o ++
                              [u "오류: 디렉토리 '" ++ dir
                                 ++ u "'에서 *.glue_sql 또는 *.xml 파일을 찾을 수 없습니다."])
                             (written o))).
      { unfold main. cbn [length Nat.ltb Nat.leb nth]. rewrite Hd.
        change (glob_glob w (join dir (u "*.glue_sql"))
                  ++ glob_glob w (join dir (u "*.xml")))
          with (directory_files w dir).
        rewrite Ef. reflexivity. }
      rewrite Hm' in Hm. inversion Hm; subst. reflexivity.
    + assert (Hne : directory_files w dir <> [])
        by (rewrite Ef; discriminate).
      destruct (main_directory str_lower str_repr w prog dir rest o Hd Hne)
        as (o1 & lines & Hm1 & _ & Hother & _).
      rewrite Hm1 in Hm. inversion Hm; subst o1. rewrite <- Ef.
      destruct (existsb (fun x => str_eqb p (output_path x None))
                        (directory_files w dir)) eqn:Eex.
      * apply existsb_exists in Eex. destruct Eex as (x & Hx & He).
        exists x. split; [exact Hx | apply str_eqb_eq; exact He].
      * exfalso. apply Hp. apply Hother. intros x Hx ->.
        assert (Ht : existsb (fun y => str_eqb (output_path x None)
                                               (output_path y None))
                             (directory_files w dir) = true).
        { apply existsb_exists. exists x. split; [exact Hx|].
          apply str_eqb_refl. }
        rewrite Ht in Eex. discriminate.
Qed.




End DriverProperties.

(** X7.  The derived output path is the input path itself exactly when the
    extension of the input is [.json]: converting such a file without an
    output argument overwrites it, and an input with any other extension,
    or none, is never overwritten. *)
Theorem derived_output_is_input_iff_json (input_file : str) :
  output_path input_file None = input_file <->
  snd (splitext input_file) = u ".json".
Proof.
  pose proof (splitext_spec input_file) as Hs.
  unfold output_path. cbn [truthy_opt negb].
  destruct (splitext input_file) as [root ext]. cbn [fst snd].
  destruct Hs as (Hp & _). split.
  - intros H. rewrite Hp in H. apply app_inv_head in H. symmetry. exact H.
  - intros ->. symmetry. exact Hp.
Qed.

(* ================================================================== *)
(** ** Further properties: the entries of a result *)

Lemma dict_set_in {V : Type} (k k0 : str) (v v0 : V) (d : list (str * V)) :
  In (k0, v0) (dict_set k v d) -> (k0 = k /\ v0 = v) \/ In (k0, v0) d.
Proof.
  induction d as [|[k' v'] d IH]; simpl.
  - intros [H|[]]. inversion H. left. auto.
  - destruct (str_eqb k' k) eqn:E; simpl.
    + apply str_eqb_eq in E. subst k'.
      intros [H|H]; [inversion H; left; auto | right; right; exact H].
    + intros [H|H]; [right; left; exact H|].
      destruct (IH H) as [H'|H']; [left; exact H' | right; right; exact H'].
Qed.

Lemma collect_in (fn qmd : str) (queries : list Element) :
  forall (inner : dict) (k : str) (v : value),
    In (k, v) (collect fn qmd queries inner) ->
    In (k, v) inner \/
    exists q : Element,
      In q queries /\ k = qid q /\ v = query_info fn qmd q.
Proof.
  induction queries as [|q queries IH]; intros inner k v H; [left; exact H|].
  unfold collect in *. simpl in H.
  destruct (IH _ _ _ H) as [H1|(q' & Hq & Hk & Hv)].
  - destruct (dict_set_in _ _ _ _ _ H1) as [[-> ->]|H2].
    + right. exists q. split; [left; reflexivity | split; reflexivity].
    + left. exact H2.
  - right. exists q'. split; [right; exact Hq | split; assumption].
Qed.

Lemma keys_dict_set {V : Type} (k : str) (v : V) (d : list (str * V)) :
  keys (dict_set k v d) =
  match lookup k d with
  | Some _ => keys d
  | None => keys d ++ [k]
  end.
Proof.
  induction d as [|[k' v'] d IH]; [reflexivity|].
  cbn [dict_set lookup].
  destruct (str_eqb k' k) eqn:E; [reflexivity|].
  change (keys ((k', v') :: dict_set k v d))
    with (k' :: keys (dict_set k v d)).
  rewrite IH. destruct (lookup k d); reflexivity.
Qed.

Lemma existsb_keys {V : Type} (k : str) (d : list (str * V)) :
  existsb (fun z => str_eqb z k) (keys d) =
  match lookup k d with
  | Some _ => true
  | None => false
  end.
Proof.
  induction d as [|[k' v'] d IH]; simpl; [reflexivity|].
  destruct (str_eqb k' k); simpl; [reflexivity | exact IH].
Qed.

Lemma filter_filter_andb {A : Type} (f g : A -> bool) (l : list A) :
  filter f (filter g l) = filter (fun x => g x && f x) l.
Proof.
  induction l as [|x l IH]; simpl; [reflexivity|].
  destruct (g x); simpl; [|exact IH].
  destruct (f x); [f_equal|]; exact IH.
Qed.

Lemma str_eqb_sym (a b : str) : str_eqb a b = str_eqb b a.
Proof.
  destruct (str_eqb a b) eqn:E.
  - apply str_eqb_eq in E. subst. symmetry. apply str_eqb_refl.
  - destruct (str_eqb b a) eqn:E'; [|reflexivity].
    apply str_eqb_eq in E'. subst. rewrite str_eqb_refl in E. discriminate.
Qed.

(** The keys after the loop: the keys that were there, then the new ids in
    the order in which they first occur. *)
Lemma collect_keys (fn qmd : str) (queries : list Element) :
  forall inner : dict,
    keys (collect fn qmd queries inner) =
    keys inner ++
    filter (fun y => negb (existsb (fun z => str_eqb z y) (keys inner)))
           (first_occurrences (map qid queries)).
Proof.
  induction queries as [|q queries IH]; intros inner.
  - simpl. symmetry. apply app_nil_r.
  - unfold collect in *. cbn [fold_left map first_occurrences filter].
    rewrite IH, keys_dict_set, existsb_keys.
    destruct (lookup (qid q) inner) eqn:L; cbn [negb].
    + f_equal. rewrite filter_filter_andb. apply filter_ext. intros y.
      destruct (str_eqb y (qid q)) eqn:E; [|reflexivity].
      apply str_eqb_eq in E. subst y. rewrite existsb_keys, L. reflexivity.
    + rewrite <- app_assoc. f_equal. cbn [app]. f_equal.
      rewrite filter_filter_andb. apply filter_ext. intros y.
      rewrite existsb_app. cbn [existsb].
      rewrite orb_false_r, negb_orb, (str_eqb_sym (qid q) y).
      apply andb_comm.
Qed.

Lemma first_occurrences_in (l : list str) (x : str) :
  In x (first_occurrences l) <-> In x l.
Proof.
  induction l as [|y l IH]; simpl; [tauto|].
  rewrite filter_In, IH, negb_true_iff, str_eqb_neq.
  destruct (str_eq_dec y x) as [->|Hn]; [tauto|].
  split; [tauto|]. intros [H|H]; [tauto|]. right. split; [exact H|].
  congruence.
Qed.

Lemma first_occurrences_NoDup (l : list str) : NoDup (first_occurrences l).
Proof.
  induction l as [|y l IH]; simpl; [constructor|].
  constructor; [|apply NoDup_filter; exact IH].
  rewrite filter_In, negb_true_iff, str_eqb_neq. tauto.
Qed.

Lemma first_occurrences_length (l : list str) :
  length (first_occurrences l) <= length l.
Proof.
  induction l as [|y l IH]; simpl; [lia|].
  pose proof (filter_length_le (fun z => negb (str_eqb z y))
                               (first_occurrences l)).
  lia.
Qed.

Lemma lazy_until_close_plain (x post : str) :
  ~ In 93%N x -> lazy_until_close (x ++ CLOSE ++ post) = Some x.
Proof.
  induction x as [|c x IH]; intros H; rewrite lazy_until_close_unfold.
  - rewrite app_nil_l, startswith_app. reflexivity.
  - change ((c :: x) ++ CLOSE ++ post) with (c :: x ++ CLOSE ++ post).
    rewrite startswith_CLOSE_head
      by (intros ->; apply H; left; reflexivity).
    rewrite IH by (intros Hin; apply H; right; exact Hin). reflexivity.
Qed.

Lemma search_cdata_wrapped (x post : str) :
  ~ In 93%N x -> search_cdata (OPEN ++ x ++ CLOSE ++ post) = Some x.
Proof.
  intros H.
  change (OPEN ++ x ++ CLOSE ++ post)
    with (60%N :: skipn 1 OPEN ++ x ++ CLOSE ++ post).
  cbn [search_cdata].
  change (60%N :: skipn 1 OPEN ++ x ++ CLOSE ++ post)
    with (OPEN ++ x ++ CLOSE ++ post).
  rewrite startswith_app, skipn_OPEN, (lazy_until_close_plain _ _ H).
  reflexivity.
Qed.

Lemma wrap_cdata_parts (b : str) :
  wrap_cdata b = OPEN ++ ([NL] ++ b ++ [NL] ++ repeat 32%N 9) ++ CLOSE ++ [].
Proof.
  unfold wrap_cdata.
  change (u "         ]]>") with (repeat 32%N 9 ++ CLOSE ++ []).
  change (u "<![CDATA[") with OPEN.
  rewrite <- !app_assoc. reflexivity.
Qed.

Lemma collapse_fixed (s : str) :
  collapsed s = true -> collapse_spaces s = s.
Proof.
  induction s as [|c s IH]; intros H; [reflexivity|].
  destruct (collapsed_cons _ _ H) as [Hh Hs].
  destruct (is_space c) eqn:Hc.
  - rewrite (collapse_cons_space _ _ Hc), (drop_while_id _ (Hh eq_refl)),
      (IH Hs).
    simpl in H. rewrite Hc in H. simpl in H.
    apply andb_true_iff in H. destruct H as [H _].
    apply andb_true_iff in H. destruct H as [H _].
    apply char_eqb_eq in H. subst c. reflexivity.
  - rewrite (collapse_cons_other _ _ Hc), (IH Hs). reflexivity.
Qed.

Section ResultProperties.

Variable str_lower : str -> str.
Variable str_repr : str -> str.

(** X8.  Every entry of a successful result comes from a [query] child of
    the root and is stored under the id of that child.  Its record holds
    exactly the five fields [id], [desc], [file_name], [query_map_desc] and
    [query], in this order, all strings; [file_name] is the base name of the
    input path; [fetchSize] and [isNamed] are not carried over. *)
Theorem stored_records_shape
        (w : World) (file_path : str) (root : Element) (o : Out)
        (H : ET_parse w file_path = Ok root) :
  exists inner : dict,
    parse_glue_sql_file str_lower str_repr w file_path o =
    (Ok [(module_code_of str_lower (basename file_path), VDict inner)], o) /\
    forall (k : str) (rec : value),
      In (k, rec) inner ->
      exists q : Element,
        In q (children root) /\ tag q = u "query" /\
        k = get q (u "id") [] /\
        rec = VDict [ (u "id", VStr k);
                      (u "desc", VStr (get q (u "desc") []));
                      (u "file_name", VStr (basename file_path));
                      (u "query_map_desc", VStr (get root (u "desc") []));
                      (u "query",
                       VStr (wrap_cdata (strip (query_body q)))) ] /\
        field (u "fetchSize") rec = None /\
        field (u "isNamed") rec = None.
Proof.
  eexists. split; [apply (parse_ok _ _ _ _ _ _ H)|].
  intros k rec Hin. apply collect_in in Hin.
  destruct Hin as [[]|(q & Hq & -> & ->)].
  unfold findall in Hq. apply filter_In in Hq. destruct Hq as [Hc Ht].
  apply str_eqb_eq in Ht.
  exists q. repeat split; assumption.
Qed.

(** X9.  The keys of the nested dictionary are the ids of the [query]
    children in the order of their first occurrence: a repeated id adds no
    entry and keeps the place of its first occurrence.  So the keys are
    pairwise distinct, they are exactly the ids that occur, and there are
    at most as many entries as [query] children. *)
Theorem result_keys_first_occurrence
        (w : World) (file_path : str) (root : Element) (o : Out)
        (H : ET_parse w file_path = Ok root) :
  let ids := map qid (findall root (u "query")) in
  exists inner : dict,
    parse_glue_sql_file str_lower str_repr w file_path o =
    (Ok [(module_code_of str_lower (basename file_path), VDict inner)], o) /\
    keys inner = first_occurrences ids /\
    NoDup (keys inner) /\
    (forall k : str, In k (keys inner) <-> In k ids) /\
    length inner <= length (findall root (u "query")).
Proof.
  intros ids. eexists. split; [apply (parse_ok _ _ _ _ _ _ H)|].
  assert (Hk : keys (collect (basename file_path) (get root (u "desc") [])
                             (findall root (u "query")) [])
               = first_occurrences ids).
  { rewrite collect_keys. cbn [keys map app existsb negb].
    apply forallb_filter_id. apply forallb_forall. reflexivity. }
  split; [exact Hk|]. split; [|split].
  - rewrite Hk. apply first_occurrences_NoDup.
  - intros k. rewrite Hk. apply first_occurrences_in.
  - pose proof (first_occurrences_length ids) as Hl.
    rewrite <- Hk in Hl. unfold keys, ids in Hl. rewrite !length_map in Hl.
    exact Hl.
Qed.

End ResultProperties.

(** X10.  A converted [query] field can be converted again: when the first
    child of a [query] element that meets the condition of the scan carries,
    as its text, the field made from a body [b] without closing bracket, the
    wrapper is taken off again, and the new field is the one made from [b]
    trimmed; for a trimmed [b] it is the text of the child itself. *)
Theorem converted_field_round_trip
        (fn qmd tg ctag : str) (attrs cattrs : list (str * str))
        (txt : option str) (cchildren rest : list Element) (b : str)
        (Hb : ~ In 93%N b) :
  let child := mkElement ctag cattrs (Some (wrap_cdata b)) cchildren in
  let q := mkElement tg attrs txt (child :: rest) in
  query_body q = [NL] ++ b ++ [NL] ++ repeat 32%N 9 /\
  field (u "query") (query_info fn qmd q)
  = Some (VStr (wrap_cdata (strip b))) /\
  (strip b = b ->
   field (u "query") (query_info fn qmd q) = Some (VStr (wrap_cdata b))).
Proof.
  intros child q.
  assert (Hx : ~ In 93%N ([NL] ++ b ++ [NL] ++ repeat 32%N 9)).
  { intros Hin. apply in_app_or in Hin. destruct Hin as [Hin|Hin].
    - simpl in Hin. destruct Hin as [Hin|[]]. discriminate.
    - apply in_app_or in Hin. destruct Hin as [Hin|Hin]; [tauto|].
      vm_compute in Hin. intuition discriminate. }
  assert (Hc : cdata_child child = true).
  { unfold cdata_child, child. cbn [text tag truthy_opt or_empty].
    assert (Hcont : contains (u "CDATA") (wrap_cdata b) = true).
    { apply contains_iff.
      exists (u "<!["), (u "[" ++ [NL] ++ b ++ [NL] ++ u "         ]]>").
      reflexivity. }
    assert (Ht : truthy (wrap_cdata b) = true) by reflexivity.
    rewrite Ht, Hcont. apply orb_true_r. }
  assert (Hbody : query_body q = [NL] ++ b ++ [NL] ++ repeat 32%N 9).
  { unfold query_body, q. cbn [children scan_children]. rewrite Hc.
    unfold child. cbn [text or_empty].
    assert (Ht : truthy (wrap_cdata b) = true) by reflexivity.
    rewrite Ht, wrap_cdata_parts, (search_cdata_wrapped _ _ Hx).
    reflexivity. }
  assert (Hstrip : strip (query_body q) = strip b).
  { rewrite Hbody. apply strip_padded; reflexivity. }
  split; [exact Hbody|].
  destruct (query_info_fields fn qmd q) as (_ & _ & _ & _ & Hq).
  rewrite Hq, Hstrip. split; [reflexivity|].
  intros ->. reflexivity.
Qed.

(* ================================================================== *)
(** ** Further properties: the normaliser and the module code *)

(** X11.  Whitespace around a text does not change what the normaliser
    makes of it, and a text of whitespace only is normalised to the empty
    string. *)
Theorem clean_outer_whitespace :
  (forall a t b : str,
      forallb is_space a = true -> forallb is_space b = true ->
      clean_multiline_text (a ++ t ++ b) = clean_multiline_text t) /\
  (forall t : str,
      forallb is_space t = true -> clean_multiline_text t = []).
Proof.
  split.
  - intros a t b Ha Hb.
    rewrite !clean_multiline_text_eq, (strip_padded _ _ _ Ha Hb).
    reflexivity.
  - intros t Ht. rewrite clean_multiline_text_eq.
    assert (Hs : strip t = []).
    { rewrite <- (app_nil_r t). change (t ++ []) with (t ++ [] ++ []).
      rewrite (strip_padded t [] [] Ht eq_refl). reflexivity. }
    rewrite Hs. reflexivity.
Qed.

(** X12.  On a text without [<] and without [[]]] the normaliser is
    idempotent: normalising its result changes nothing. *)
Theorem clean_idempotent_on_plain (t : str)
        (H1 : ~ In 60%N t) (H2 : ~ In 93%N t) :
  clean_multiline_text (clean_multiline_text t) = clean_multiline_text t.
Proof.
  rewrite (clean_plain t H1 H2).
  assert (P1 : ~ In 60%N (collapse_spaces (strip t))).
  { apply not_in_collapse; [discriminate|].
    intros Hin. apply H1. exact (strip_in _ _ Hin). }
  assert (P2 : ~ In 93%N (collapse_spaces (strip t))).
  { apply not_in_collapse; [discriminate|].
    intros Hin. apply H2. exact (strip_in _ _ Hin). }
  rewrite (clean_plain _ P1 P2).
  rewrite <- (strip_collapse t), strip_strip.
  apply collapse_fixed. apply collapsed_strip, collapse_spaces_collapsed.
Qed.

(** X13.  [extract_query_id] gives "unknown" for an id of fewer than three
    characters, and for a longer id the module code of every file whose
    name starts with the same three characters. *)
Theorem extract_query_id_matches_module_code (str_lower : str -> str) :
  (forall query_id : str,
      length query_id < 3 ->
      extract_query_id str_lower query_id = u "unknown") /\
  (forall query_id file_name : str,
      3 <= length query_id ->
      firstn 3 query_id = firstn 3 file_name ->
      extract_query_id str_lower query_id
      = module_code_of str_lower file_name).
Proof.
  split.
  - intros query_id H. unfold extract_query_id.
    destruct (3 <=? length query_id) eqn:E; [|reflexivity].
    apply Nat.leb_le in E. lia.
  - intros query_id file_name H E.
    assert (Hf : 3 <= length file_name).
    { apply (f_equal (@length char)) in E. rewrite !length_firstn in E.
      lia. }
    unfold extract_query_id, module_code_of.
    rewrite !slice_to_firstn by lia. change (Z.to_nat 3) with 3.
    rewrite (proj2 (Nat.leb_le _ _) H), (proj2 (Nat.leb_le _ _) Hf), E.
    reflexivity.
Qed.

(* ================================================================== *)
(** ** The further properties on concrete documents *)


Lemma main_failure_modes_write_nothing_witness :
  exists (o' : Out) (lines : list str),
    run w3 [prog; file_missing] Out0 = (Ok 1, o') /\
    written o' = [] /\ stdout o' = lines /\ lines <> [].
Proof.
  assert (Hd : os_path_isdir w3 file_missing = false) by by_eval.
  assert (Hf : os_path_isfile w3 file_missing = false) by by_eval.
  destruct (main_failure_modes_write_nothing
              lower_tr repr_plain w3 [prog; file_missing] Out0)
    as (o' & lines & Hm & Hw & Hs & Hl).
  - right. exists prog, file_missing, []. split; [reflexivity|].
    left. split; [exact Hd | exact Hf].
  - exists o', lines. repeat split; assumption.
Defined.

Lemma main_directory_mode_outputs_witness :
  os_path_isdir w3 (u "d") = true /\
  run w3 [prog; u "d"; u "ignored.json"] Out0 = run w3 [prog; u "d"] Out0.
Proof.
  assert (Hd : os_path_isdir w3 (u "d") = true) by by_eval.
  split; [exact Hd|].
  exact (proj1 (main_directory_mode_outputs
                  lower_tr repr_plain w3 prog (u "d") [u "ignored.json"]
                  Out0 Hd)).
Defined.



Lemma stored_records_shape_witness :
  ET_parse w3 file_a = Ok root_a /\
  exists inner : dict,
    parse w3 file_a Out0
    = (Ok [(module_code_of lower_tr (basename file_a), VDict inner)], Out0) /\
    forall (k : str) (rec : value),
      In (k, rec) inner ->
      field (u "id") rec = Some (VStr k) /\
      field (u "file_name") rec = Some (VStr (u "B47SA508.glue_sql")).
Proof.
  assert (E : ET_parse w3 file_a = Ok root_a) by by_eval.
  split; [exact E|].
  destruct (stored_records_shape lower_tr repr_plain w3 file_a root_a Out0 E)
    as (inner & Hp & Hrec).
  exists inner. split; [exact Hp|].
  intros k rec Hin.
  destruct (Hrec k rec Hin) as (q & _ & _ & _ & -> & _).
  split; [|by_eval].
  cbn [field lookup]. rewrite str_eqb_refl. reflexivity.
Defined.

Lemma result_keys_first_occurrence_witness :
  ET_parse w_dup file_dup = Ok root_dup /\
  exists inner : dict,
    parse w_dup file_dup Out0
    = (Ok [(module_code_of lower_tr (basename file_dup), VDict inner)], Out0)
    /\ keys inner = [u "a"; u "b"].
Proof.
  assert (E : ET_parse w_dup file_dup = Ok root_dup) by by_eval.
  split; [exact E|].
  destruct (result_keys_first_occurrence
              lower_tr repr_plain w_dup file_dup root_dup Out0 E)
    as (inner & Hp & Hk & _).
  exists inner. split; [exact Hp|]. rewrite Hk. by_eval.
Defined.

Lemma converted_field_round_trip_witness :
  ~ In 93%N (u "SELECT 1") /\
  field (u "query")
        (query_info [] []
           (mkElement (u "query") [] None
              [mkElement (u "sql") [] (Some (wrap_cdata (u "SELECT 1"))) []]))
  = Some (VStr (wrap_cdata (u "SELECT 1"))).
Proof.
  assert (Hb : ~ In 93%N (u "SELECT 1"))
    by (vm_compute; intuition discriminate).
  split; [exact Hb|].
  destruct (converted_field_round_trip
              [] [] (u "query") (u "sql") [] [] None [] [] (u "SELECT 1") Hb)
    as (_ & _ & Hq).
  apply Hq. by_eval.
Defined.

Lemma clean_outer_whitespace_witness :
  clean_multiline_text (u "  " ++ u "a b" ++ [NL]) = clean_multiline_text (u "a b")
  /\ clean_multiline_text [NL; TAB; 32%N] = [].
Proof.
  destruct clean_outer_whitespace as [H1 H2].
  split; [apply H1 | apply H2]; by_eval.
Defined.

Lemma clean_idempotent_on_plain_witness :
  clean_multiline_text (clean_multiline_text (u " a   b "))
  = clean_multiline_text (u " a   b ").
Proof.
  apply clean_idempotent_on_plain; vm_compute; intuition discriminate.
Defined.

Lemma extract_query_id_matches_module_code_witness :
  extract_query_id lower_tr (u "B47SA508_1.select")
  = module_code_of lower_tr (u "B47SA508.glue_sql") /\
  extract_query_id lower_tr (u "q1") = u "unknown".
Proof.
  destruct (extract_query_id_matches_module_code lower_tr) as [H1 H2].
  split; [apply H2; [vm_compute; lia | by_eval] | apply H1; vm_compute; lia].
Defined.

